(** * ccls indexer core: identifier algebra, references, entity defs and
      the crash-recovery shim

    A shallow embedding of [src/clang_tu.h] and the indexer header that
    follows it in the same file: [RunSafely], [Id<T>], [SymbolIdx],
    [Reference], [Use], [NameMixin::Name], [TypeDef], [FuncDef], [VarDef].

    Conventions.
    - A C++ unsigned integer of width [w] is a [Z] in [0, 2^w); conversions
      to it are written out with [Z.modulo].  A signed [int16_t] is a [Z] in
      [-2^15, 2^15).
    - [operator==] and [operator<] of a C++ value type are the boolean
      functions [eq_op] and [lt_op] of the classes [EqOp] and [LtOp].
    - Types whose headers are not part of the indexer header ([Range],
      [NtString], [Maybe<T>]) are section parameters carrying their own
      comparison operators. *)

From Stdlib Require Import ZArith Bool List String Ascii Lia.
Import ListNotations.
Open Scope Z_scope.

(** ** Comparison operators of C++ value types *)

Class EqOp (A : Type) := eq_op : A -> A -> bool.
Class LtOp (A : Type) := lt_op : A -> A -> bool.

Infix "==?" := eq_op (at level 70, no associativity).
Infix "<<?" := lt_op (at level 70, no associativity).

(** [operator==] decides Leibniz equality. *)
Class EqOpSpec (A : Type) `{EqOp A} : Prop :=
  eq_op_spec : forall a b : A, (a ==? b) = true <-> a = b.

(** [operator==] is at least reflexive. *)
Class EqOpRefl (A : Type) `{EqOp A} : Prop :=
  eq_op_refl : forall a : A, (a ==? a) = true.

(** [operator<] is a strict total order. *)
Class StrictTotal (A : Type) `{LtOp A} : Prop := {
  lt_op_irrefl : forall a : A, (a <<? a) = false;
  lt_op_trans : forall a b c : A,
      (a <<? b) = true -> (b <<? c) = true -> (a <<? c) = true;
  lt_op_connex : forall a b : A,
      (a <<? b) = false -> (b <<? a) = false -> a = b
}.

(** Built-in integer comparison. *)
#[export] Instance Z_EqOp : EqOp Z := Z.eqb.
#[export] Instance Z_LtOp : LtOp Z := Z.ltb.

(** [std::string::operator==]. *)
#[export] Instance string_EqOp : EqOp string := String.eqb.

(** [std::vector<T>::operator==]: same size and element-wise [==]. *)
Fixpoint vector_eq {A : Type} `{EqOp A} (xs ys : list A) : bool :=
  match xs, ys with
  | [], [] => true
  | x :: xs', y :: ys' => (x ==? y) && vector_eq xs' ys'
  | _, _ => false
  end.
#[export] Instance vector_EqOp {A : Type} `{EqOp A} : EqOp (list A) := vector_eq.

(** [std::tuple] comparison, on right-nested pairs closed by [tt].
    [operator==] is the conjunction of the element-wise [==];
    [operator<] tests [get<i>(t) < get<i>(u)], then
    [!(get<i>(u) < get<i>(t))] and the remaining elements. *)
#[export] Instance unit_EqOp : EqOp unit := fun _ _ => true.
#[export] Instance unit_LtOp : LtOp unit := fun _ _ => false.
#[export] Instance tuple_EqOp {A B : Type} `{EqOp A} `{EqOp B} : EqOp (A * B) :=
  fun t u => (fst t ==? fst u) && (snd t ==? snd u).
#[export] Instance tuple_LtOp {A B : Type} `{LtOp A} `{LtOp B} : LtOp (A * B) :=
  fun t u => (fst t <<? fst u) || (negb (fst u <<? fst t) && (snd t <<? snd u)).

(** ** Id<T> *)

(** [using RawId = uint32_t]. *)
Definition RawId := Z.
Definition RawId_of (z : Z) : RawId := z mod 2 ^ 32.

(** The phantom parameter of [Id<T>]. *)
Inductive IdTag : Type :=
| TVoid | TIndexFile | TIndexType | TIndexFunc | TIndexVar | TQueryFile.

Definition is_void (T : IdTag) : bool :=
  match T with TVoid => true | _ => false end.

Definition is_same (T U : IdTag) : bool :=
  match T, U with
  | TVoid, TVoid | TIndexFile, TIndexFile | TIndexType, TIndexType
  | TIndexFunc, TIndexFunc | TIndexVar, TIndexVar
  | TQueryFile, TQueryFile => true
  | _, _ => false
  end.

Record Id (T : IdTag) : Type := MkId { id : RawId }.
Arguments MkId {T} _.
Arguments id {T} _.

(** [Id() : id(-1)]. *)
Definition Id_default (T : IdTag) : Id T := MkId (RawId_of (-1)).
(** [explicit Id(RawId id)]. *)
Definition Id_of_raw (T : IdTag) (r : RawId) : Id T := MkId r.

(** The [enable_if] condition of the implicit converting constructor
    [Id(Id<U> o)] of [Id<T>]; the explicit one has its negation. *)
Definition implicit_conversion (T U : IdTag) : bool := is_void T || is_same T U.

(** Both converting constructors have the body [id(o.id)]. *)
Definition Id_convert {U : IdTag} (T : IdTag) (o : Id U) : Id T := MkId (id o).

(** Implicit widening [Id<U> -> Id<void>]. *)
Definition Id_widen {U : IdTag} (o : Id U) : Id TVoid := Id_convert TVoid o.
(** Explicit narrowing [Id<T>(Id<void>)]. *)
Definition Id_narrow (T : IdTag) (o : Id TVoid) : Id T := Id_convert T o.

(** [explicit operator RawId()]. *)
Definition Id_to_raw {T : IdTag} (i : Id T) : RawId := id i.

Definition Id_Valid {T : IdTag} (i : Id T) : bool :=
  negb (id i =? RawId_of (-1)).

#[export] Instance Id_EqOp {T : IdTag} : EqOp (Id T) := fun a o => id a =? id o.
#[export] Instance Id_LtOp {T : IdTag} : LtOp (Id T) := fun a o => id a <? id o.
Definition Id_ne {T : IdTag} (a o : Id T) : bool := negb (id a =? id o).

Section IdHash.
(** [std::hash<RawId>], from the standard library. *)
Variable hash_RawId : RawId -> Z.

(** [std::hash<Id<T>>::operator()]. *)
Definition Id_hash {T : IdTag} (k : Id T) : Z := hash_RawId (id k).
End IdHash.


(** ** Enumerations declared in other headers *)

(** Modelled from the spec: [enum class SymbolKind] is declared in
    [symbol.h], which is not part of this header; the spec lists its
    enumerators in the order Invalid, File, Type, Func, Var.  Scoped
    enumerations compare by their underlying value. *)
Inductive SymbolKind : Type :=
| SymbolKind_Invalid | SymbolKind_File | SymbolKind_Type
| SymbolKind_Func | SymbolKind_Var.

Definition SymbolKind_value (k : SymbolKind) : Z :=
  match k with
  | SymbolKind_Invalid => 0
  | SymbolKind_File => 1
  | SymbolKind_Type => 2
  | SymbolKind_Func => 3
  | SymbolKind_Var => 4
  end.

#[export] Instance SymbolKind_EqOp : EqOp SymbolKind :=
  fun a o => SymbolKind_value a =? SymbolKind_value o.
#[export] Instance SymbolKind_LtOp : LtOp SymbolKind :=
  fun a o => SymbolKind_value a <? SymbolKind_value o.

(** Modelled from the spec: [enum class Role] is declared in [symbol.h]; the
    spec describes it as a bitset over Declaration, Definition, Reference,
    Read, Write, Call, Dynamic, Address, Implicit.  A value is the unsigned
    integer holding the bits, and comparison is that of the integers. *)
Record Role : Type := MkRole { role_bits : Z }.

Definition Role_Declaration : Role := MkRole (Z.shiftl 1 0).
Definition Role_Definition : Role := MkRole (Z.shiftl 1 1).
Definition Role_Reference : Role := MkRole (Z.shiftl 1 2).
Definition Role_Read : Role := MkRole (Z.shiftl 1 3).
Definition Role_Write : Role := MkRole (Z.shiftl 1 4).
Definition Role_Call : Role := MkRole (Z.shiftl 1 5).
Definition Role_Dynamic : Role := MkRole (Z.shiftl 1 6).
Definition Role_Address : Role := MkRole (Z.shiftl 1 7).
Definition Role_Implicit : Role := MkRole (Z.shiftl 1 8).
Definition Role_or (a b : Role) : Role := MkRole (Z.lor (role_bits a) (role_bits b)).

#[export] Instance Role_EqOp : EqOp Role := fun a o => role_bits a =? role_bits o.
#[export] Instance Role_LtOp : LtOp Role := fun a o => role_bits a <? role_bits o.

(** Modelled from the spec: [enum class lsSymbolKind] is declared in
    [lsp.h]; the enumerators are the ones the spec and this header name
    (Unknown is the default of every def's [kind]). *)
Inductive lsSymbolKind : Type :=
| lsSymbolKind_Unknown | lsSymbolKind_File | lsSymbolKind_Namespace
| lsSymbolKind_Class | lsSymbolKind_Method | lsSymbolKind_Field
| lsSymbolKind_Constructor | lsSymbolKind_Enum | lsSymbolKind_Function
| lsSymbolKind_Variable | lsSymbolKind_EnumMember | lsSymbolKind_Struct
| lsSymbolKind_TypeAlias | lsSymbolKind_Parameter | lsSymbolKind_Macro.

Definition lsSymbolKind_tag (k : lsSymbolKind) : Z :=
  match k with
  | lsSymbolKind_Unknown => 0
  | lsSymbolKind_File => 1
  | lsSymbolKind_Namespace => 3
  | lsSymbolKind_Class => 5
  | lsSymbolKind_Method => 6
  | lsSymbolKind_Field => 8
  | lsSymbolKind_Constructor => 9
  | lsSymbolKind_Enum => 10
  | lsSymbolKind_Function => 12
  | lsSymbolKind_Variable => 13
  | lsSymbolKind_EnumMember => 22
  | lsSymbolKind_Struct => 23
  | lsSymbolKind_TypeAlias => 252
  | lsSymbolKind_Parameter => 253
  | lsSymbolKind_Macro => 255
  end.

#[export] Instance lsSymbolKind_EqOp : EqOp lsSymbolKind :=
  fun a o => lsSymbolKind_tag a =? lsSymbolKind_tag o.

(** Modelled from the spec: [enum class StorageClass] is declared in
    [symbol.h]; enumerators in the spec's order. *)
Inductive StorageClass : Type :=
| StorageClass_Invalid | StorageClass_None | StorageClass_Extern
| StorageClass_Static | StorageClass_PrivateExtern | StorageClass_Auto
| StorageClass_Register.

Definition StorageClass_value (s : StorageClass) : Z :=
  match s with
  | StorageClass_Invalid => 0
  | StorageClass_None => 1
  | StorageClass_Extern => 2
  | StorageClass_Static => 3
  | StorageClass_PrivateExtern => 4
  | StorageClass_Auto => 5
  | StorageClass_Register => 6
  end.

#[export] Instance StorageClass_EqOp : EqOp StorageClass :=
  fun a o => StorageClass_value a =? StorageClass_value o.

(** ** SymbolIdx *)

Record SymbolIdx : Type := MkSymbolIdx {
  sym_id : Id TVoid;
  sym_kind : SymbolKind
}.

#[export] Instance SymbolIdx_EqOp : EqOp SymbolIdx :=
  fun a o => (sym_id a ==? sym_id o) && (sym_kind a ==? sym_kind o).

#[export] Instance SymbolIdx_LtOp : LtOp SymbolIdx :=
  fun a o =>
    if negb (sym_id a ==? sym_id o)
    then sym_id a <<? sym_id o
    else sym_kind a <<? sym_kind o.

(** ** Reference, SymbolRef, Use *)

Section References.
(** [Range] comes from [position.h]. *)
Context {Range : Type} {Range_EqOp : EqOp Range} {Range_LtOp : LtOp Range}.

Record Reference : Type := MkReference {
  range : Range;
  ref_id : Id TVoid;
  ref_kind : SymbolKind;
  role : Role
}.

(** [operator SymbolIdx() const]. *)
Definition Reference_to_SymbolIdx (r : Reference) : SymbolIdx :=
  MkSymbolIdx (ref_id r) (ref_kind r).

Definition ToTuple (r : Reference)
  : Range * (Id TVoid * (SymbolKind * (Role * unit))) :=
  (range r, (ref_id r, (ref_kind r, (role r, tt)))).

#[export] Instance Reference_EqOp : EqOp Reference :=
  fun a o => ToTuple a ==? ToTuple o.
#[export] Instance Reference_LtOp : LtOp Reference :=
  fun a o => ToTuple a <<? ToTuple o.

(** [struct SymbolRef : Reference] adds no member. *)
Definition SymbolRef : Type := Reference.

(** [struct Use : Reference] adds [file] and declares no comparison, so
    [==] and [<] on a [Use] are those of its [Reference] base. *)
Record Use : Type := MkUse {
  use_base : Reference;
  use_file : Id TQueryFile
}.

#[export] Instance Use_EqOp : EqOp Use :=
  fun a o => use_base a ==? use_base o.
#[export] Instance Use_LtOp : LtOp Use :=
  fun a o => use_base a <<? use_base o.

(** The mathematical lexicographic order on (range, id, kind, role). *)
Definition Reference_lex (a o : Reference) : Prop :=
  (range a <<? range o) = true \/
  range a = range o /\
  (id (ref_id a) < id (ref_id o) \/
   id (ref_id a) = id (ref_id o) /\
   (SymbolKind_value (ref_kind a) < SymbolKind_value (ref_kind o) \/
    ref_kind a = ref_kind o /\
    role_bits (role a) < role_bits (role o))).
End References.

Arguments Reference Range : clear implicits.
Arguments Use Range : clear implicits.
Arguments SymbolRef Range : clear implicits.

(** ** NameMixin *)

(** [int16_t] and [size_t] (64-bit target). *)
Definition int16_t (z : Z) : Prop := - 2 ^ 15 <= z < 2 ^ 15.
Definition size_t_of (z : Z) : Z := z mod 2 ^ 64.

(** [std::string_view] into the buffer of one string: the start as an offset
    from [c_str()] and the size. *)
Record string_view : Type := MkStringView {
  sv_data : Z;
  sv_size : Z
}.

(** The members that [NameMixin<D>] reads through [static_cast<const D*>]. *)
Class NameMembers (D : Type) : Type := {
  detailed_name : D -> string;
  qual_name_offset : D -> Z;
  short_name_offset : D -> Z;
  short_name_size : D -> Z
}.

(** The three offsets hold [int16_t] values. *)
Definition NameMembers_typed {D : Type} `{NameMembers D} (self : D) : Prop :=
  int16_t (qual_name_offset self) /\
  int16_t (short_name_offset self) /\
  int16_t (short_name_size self).

(** [NameMixin<D>::Name].  The operands are promoted to [int], where the sum
    cannot overflow, and the result is converted to [size_t]. *)
Definition Name {D : Type} `{NameMembers D} (self : D) (qualified : bool)
  : string_view :=
  if qualified
  then MkStringView (qual_name_offset self)
         (size_t_of (short_name_offset self - qual_name_offset self +
                     short_name_size self))
  else MkStringView (short_name_offset self)
         (size_t_of (short_name_size self)).

(** A view lies within the characters of [buf]. *)
Definition sv_in_bounds (buf : string) (v : string_view) : bool :=
  (0 <=? sv_data v) && (sv_data v + sv_size v <=? Z.of_nat (String.length buf)).

(** Character [i] of a view, read from the buffer. *)
Definition sv_at (buf : string) (v : string_view) (i : Z) : option ascii :=
  if (0 <=? i) && (i <? sv_size v) && (0 <=? sv_data v + i)
  then String.get (Z.to_nat (sv_data v + i)) buf
  else None.

(** The characters a view denotes; [None] when it leaves the string. *)
Definition sv_contents (buf : string) (v : string_view) : option string :=
  if sv_in_bounds buf v
  then Some (String.substring (Z.to_nat (sv_data v)) (Z.to_nat (sv_size v)) buf)
  else None.

(** The precondition on the offsets, as the spec words it. *)
Definition Name_offsets_ok {D : Type} `{NameMembers D} (self : D) : Prop :=
  0 <= qual_name_offset self <= short_name_offset self /\
  short_name_offset self + short_name_size self <=
    Z.of_nat (String.length (detailed_name self)).

(** [Name(false)] denotes the short name and [Name(true)] the qualified
    name, as substrings of [detailed_name]. *)
Definition Name_returns_names {D : Type} `{NameMembers D} (self : D) : Prop :=
  sv_contents (detailed_name self) (Name self false) =
    Some (String.substring (Z.to_nat (short_name_offset self))
            (Z.to_nat (short_name_size self)) (detailed_name self)) /\
  sv_contents (detailed_name self) (Name self true) =
    Some (String.substring (Z.to_nat (qual_name_offset self))
            (Z.to_nat (short_name_offset self - qual_name_offset self +
                       short_name_size self)) (detailed_name self)).

(** Both views lie within [detailed_name], and the length computed for the
    qualified one is not negative. *)
Definition Name_in_bounds {D : Type} `{NameMembers D} (self : D) : Prop :=
  sv_in_bounds (detailed_name self) (Name self true) = true /\
  sv_in_bounds (detailed_name self) (Name self false) = true /\
  0 <= short_name_offset self - qual_name_offset self + short_name_size self.

(** Every character of the view is a character of [buf]. *)
Definition sv_reads_inside (buf : string) (v : string_view) : Prop :=
  forall i : Z, 0 <= i < sv_size v -> sv_at buf v i <> None.

(** ** TypeDef, FuncDef, VarDef *)

(** The template parameter [F] of the defs: the id types of a family. *)
Record Family : Type := MkFamily {
  FileId : Type;
  FuncId : Type;
  TypeId : Type;
  VarId : Type;
  FuncId_eq : EqOp FuncId;
  TypeId_eq : EqOp TypeId;
  VarId_eq : EqOp VarId
}.
#[export] Existing Instances FuncId_eq TypeId_eq VarId_eq.

Definition IndexFamily : Family :=
  MkFamily (Id TIndexFile) (Id TIndexFunc) (Id TIndexType) (Id TIndexVar)
           Id_EqOp Id_EqOp Id_EqOp.

Section Defs.
Context {Range : Type} {Range_EqOp : EqOp Range} {Range_LtOp : LtOp Range}.
(** [NtString] comes from [nt_string.h], [Maybe<T>] from [maybe.h]. *)
Context {NtString : Type} {NtString_EqOp : EqOp NtString}.
Context {Maybe : Type -> Type}
        {Maybe_EqOp : forall T : Type, EqOp T -> EqOp (Maybe T)}.
Context {F : Family}.

#[local] Existing Instance Maybe_EqOp.

Record TypeDef : Type := MkTypeDef {
  type_detailed_name : string;
  type_hover : NtString;
  type_comments : NtString;
  type_spell : Maybe (Use Range);
  type_extent : Maybe (Use Range);
  type_bases : list (TypeId F);
  type_types : list (TypeId F);
  type_funcs : list (FuncId F);
  type_vars : list (VarId F);
  type_file : FileId F;
  type_alias_of : Maybe (TypeId F);
  type_qual_name_offset : Z;
  type_short_name_offset : Z;
  type_short_name_size : Z;
  type_kind : lsSymbolKind
}.

#[export] Instance TypeDef_NameMembers : NameMembers TypeDef := {|
  detailed_name := type_detailed_name;
  qual_name_offset := type_qual_name_offset;
  short_name_offset := type_short_name_offset;
  short_name_size := type_short_name_size
|}.

#[export] Instance TypeDef_EqOp : EqOp TypeDef := fun a o =>
  (type_detailed_name a ==? type_detailed_name o) &&
  (type_spell a ==? type_spell o) &&
  (type_extent a ==? type_extent o) &&
  (type_alias_of a ==? type_alias_of o) &&
  (type_bases a ==? type_bases o) &&
  (type_types a ==? type_types o) &&
  (type_funcs a ==? type_funcs o) &&
  (type_vars a ==? type_vars o) &&
  (type_kind a ==? type_kind o) &&
  (type_hover a ==? type_hover o) &&
  (type_comments a ==? type_comments o).

Record FuncDef : Type := MkFuncDef {
  func_detailed_name : string;
  func_hover : NtString;
  func_comments : NtString;
  func_spell : Maybe (Use Range);
  func_extent : Maybe (Use Range);
  func_bases : list (FuncId F);
  func_vars : list (VarId F);
  func_callees : list (SymbolRef Range);
  func_file : FileId F;
  func_declaring_type : Maybe (TypeId F);
  func_qual_name_offset : Z;
  func_short_name_offset : Z;
  func_short_name_size : Z;
  func_kind : lsSymbolKind;
  func_storage : StorageClass
}.

#[export] Instance FuncDef_NameMembers : NameMembers FuncDef := {|
  detailed_name := func_detailed_name;
  qual_name_offset := func_qual_name_offset;
  short_name_offset := func_short_name_offset;
  short_name_size := func_short_name_size
|}.

#[export] Instance FuncDef_EqOp : EqOp FuncDef := fun a o =>
  (func_detailed_name a ==? func_detailed_name o) &&
  (func_spell a ==? func_spell o) &&
  (func_extent a ==? func_extent o) &&
  (func_declaring_type a ==? func_declaring_type o) &&
  (func_bases a ==? func_bases o) &&
  (func_vars a ==? func_vars o) &&
  (func_callees a ==? func_callees o) &&
  (func_kind a ==? func_kind o) &&
  (func_storage a ==? func_storage o) &&
  (func_hover a ==? func_hover o) &&
  (func_comments a ==? func_comments o).

Record VarDef : Type := MkVarDef {
  var_detailed_name : string;
  var_hover : NtString;
  var_comments : NtString;
  var_spell : Maybe (Use Range);
  var_extent : Maybe (Use Range);
  var_file : FileId F;
  var_type : Maybe (TypeId F);
  var_qual_name_offset : Z;
  var_short_name_offset : Z;
  var_short_name_size : Z;
  var_kind : lsSymbolKind;
  var_storage : StorageClass
}.

#[export] Instance VarDef_NameMembers : NameMembers VarDef := {|
  detailed_name := var_detailed_name;
  qual_name_offset := var_qual_name_offset;
  short_name_offset := var_short_name_offset;
  short_name_size := var_short_name_size
|}.

Definition is_local (v : VarDef) : bool :=
  var_kind v ==? lsSymbolKind_Variable.

#[export] Instance VarDef_EqOp : EqOp VarDef := fun a o =>
  (var_detailed_name a ==? var_detailed_name o) &&
  (var_spell a ==? var_spell o) &&
  (var_extent a ==? var_extent o) &&
  (var_type a ==? var_type o) &&
  (var_kind a ==? var_kind o) &&
  (var_storage a ==? var_storage o) &&
  (var_hover a ==? var_hover o) &&
  (var_comments a ==? var_comments o).

(** Copies of a def with another owning file and other name offsets. *)
Definition TypeDef_relocate (d : TypeDef) (f : FileId F) (q s n : Z) : TypeDef :=
  MkTypeDef (type_detailed_name d) (type_hover d) (type_comments d)
    (type_spell d) (type_extent d) (type_bases d) (type_types d)
    (type_funcs d) (type_vars d) f (type_alias_of d) q s n (type_kind d).

Definition FuncDef_relocate (d : FuncDef) (f : FileId F) (q s n : Z) : FuncDef :=
  MkFuncDef (func_detailed_name d) (func_hover d) (func_comments d)
    (func_spell d) (func_extent d) (func_bases d) (func_vars d)
    (func_callees d) f (func_declaring_type d) q s n (func_kind d)
    (func_storage d).

Definition VarDef_relocate (d : VarDef) (f : FileId F) (q s n : Z) : VarDef :=
  MkVarDef (var_detailed_name d) (var_hover d) (var_comments d)
    (var_spell d) (var_extent d) f (var_type d) q s n (var_kind d)
    (var_storage d).
End Defs.

(** ** RunSafely *)

(** [strcmp] on NUL-free strings: the difference of the first pair of
    differing bytes, the terminator counting as 0. *)
Fixpoint strcmp (a b : string) : Z :=
  match a, b with
  | EmptyString, EmptyString => 0
  | EmptyString, String d _ => 0 - Z.of_N (N_of_ascii d)
  | String c _, EmptyString => Z.of_N (N_of_ascii c) - 0
  | String c a', String d b' =>
      if Ascii.eqb c d then strcmp a' b'
      else Z.of_N (N_of_ascii c) - Z.of_N (N_of_ascii d)
  end.

(** A C string has no embedded NUL. *)
Fixpoint c_string (s : string) : bool :=
  match s with
  | EmptyString => true
  | String c s' => negb (Ascii.eqb c zero) && c_string s'
  end.

Section CrashRecovery.
(** The state a closure acts on. *)
Variable World : Type.

(** Running code either returns, leaving a state, or faults. *)
Inductive Outcome (A : Type) : Type :=
| Returned (a : A) (w : World)
| Fault.
Arguments Returned {A} _ _.
Arguments Fault {A}.

Definition Fn : Type := World -> Outcome unit.

(** [llvm::CrashRecoveryContext::RunSafely], from LLVM: it always comes
    back to its caller with a flag. *)
Variable CRC_RunSafely : Fn -> World -> bool * World.

(** [getenv] yields NULL or a C string.  A fault in the directly invoked
    closure is a fault of [RunSafely]. *)
Definition RunSafely (env : option string) (fn : Fn) (w : World)
  : Outcome bool :=
  match env with
  | Some e =>
      if strcmp e "0" =? 0
      then match fn w with
           | Returned _ w' => Returned true w'
           | Fault => Fault
           end
      else let '(r, w') := CRC_RunSafely fn w in Returned r w'
  | None => let '(r, w') := CRC_RunSafely fn w in Returned r w'
  end.

(** The two ways of running the closure. *)
Definition run_unshielded (fn : Fn) (w : World) : Outcome bool :=
  match fn w with
  | Returned _ w' => Returned true w'
  | Fault => Fault
  end.

Definition run_shielded (fn : Fn) (w : World) : Outcome bool :=
  Returned (fst (CRC_RunSafely fn w)) (snd (CRC_RunSafely fn w)).
End CrashRecovery.

Arguments Returned {World A} _ _.
Arguments Fault {World A}.
(** What [getenv] may return: NULL or a C string. *)
Definition getenv_result (env : option string) : bool :=
  match env with
  | Some e => c_string e
  | None => true
  end.

(** A crash-recovery context over a counter: it reports a fault as [false]
    and leaves the state as it was. *)
Definition counting_CRC (fn : Fn nat) (w : nat) : bool * nat :=
  match fn w with
  | Returned _ w' => (true, w')
  | Fault => (false, w)
  end.

Definition increment : Fn nat := fun w => Returned tt (S w).
Definition crash : Fn nat := fun _ => Fault.

(** ** Position and Range *)

(** Modelled from the spec: [Position] and [Range] are declared in
    [position.h].  A position is a line/column pair whose equality and
    order are lexicographic; a range is a pair of positions, compared here
    by start, then end. *)
Record Position : Type := MkPosition { line : Z; column : Z }.

#[export] Instance Position_EqOp : EqOp Position :=
  fun a o => (line a =? line o) && (column a =? column o).
#[export] Instance Position_LtOp : LtOp Position :=
  fun a o => if negb (line a =? line o) then line a <? line o
             else column a <? column o.

Record PosRange : Type := MkPosRange { start : Position; end_ : Position }.

#[export] Instance PosRange_EqOp : EqOp PosRange :=
  fun a o => (start a ==? start o) && (end_ a ==? end_ o).
#[export] Instance PosRange_LtOp : LtOp PosRange :=
  fun a o => if negb (start a ==? start o) then start a <<? start o
             else end_ a <<? end_ o.

(** The members of a Position as a tuple. *)
Definition Position_tuple (p : Position) : Z * (Z * unit) :=
  (line p, (column p, tt)).

(** The members of a PosRange as a tuple. *)
Definition PosRange_tuple (r : PosRange) : Position * (Position * unit) :=
  (start r, (end_ r, tt)).

(** ** A concrete choice of the parameters *)

(** An optional value with the comparison of [std::optional], standing for
    [Maybe<T>] when the defs are instantiated. *)
Definition option_eq {T : Type} (e : EqOp T) : EqOp (option T) :=
  fun a o =>
    match a, o with
    | Some x, Some y => x ==? y
    | None, None => true
    | _, _ => false
    end.

Definition IndexTypeDef : Type :=
  @TypeDef PosRange string option IndexFamily.
Definition IndexFuncDef : Type :=
  @FuncDef PosRange string option IndexFamily.
Definition IndexVarDef : Type :=
  @VarDef PosRange string option IndexFamily.

(** The method [void n::C::m()] of the spec's first scenario, and two defs
    whose [short_name_size] is negative. *)
Definition method_m : IndexFuncDef :=
  @MkFuncDef PosRange string option IndexFamily
    "void n::C::m()" EmptyString EmptyString None None [] [] []
    (Id_of_raw TIndexFile 0) (Some (Id_of_raw TIndexType 0))
    5 11 1 lsSymbolKind_Method StorageClass_None.

Definition type_negative_size : IndexTypeDef :=
  @MkTypeDef PosRange string option IndexFamily
    "abc" EmptyString EmptyString None None [] [] [] []
    (Id_of_raw TIndexFile 0) None
    0 0 (-1) lsSymbolKind_Class.

Definition var_negative_size : IndexVarDef :=
  @MkVarDef PosRange string option IndexFamily
    "int x" EmptyString EmptyString None None
    (Id_of_raw TIndexFile 0) None
    0 4 (-2) lsSymbolKind_Variable StorageClass_None.

(** ** IndexType, IndexFunc, IndexVar *)

Section Entities.
Context {Range NtString : Type} {Maybe : Type -> Type}.
(** [Usr] is declared outside this header. *)
Context {Usr : Type}.

Record IndexType : Type := MkIndexType {
  IndexType_usr : Usr;
  IndexType_id : Id TIndexType;
  IndexType_def : @TypeDef Range NtString Maybe IndexFamily;
  IndexType_declarations : list (Use Range);
  IndexType_derived : list (Id TIndexType);
  IndexType_instances : list (Id TIndexVar);
  IndexType_uses : list (Use Range)
}.

#[export] Instance IndexType_LtOp : LtOp IndexType :=
  fun a other => IndexType_id a <<? IndexType_id other.

(** [IndexFunc::Declaration]. *)
Record Declaration : Type := MkDeclaration {
  Declaration_spell : Use Range;
  Declaration_param_spellings : list Range
}.

Record IndexFunc : Type := MkIndexFunc {
  IndexFunc_usr : Usr;
  IndexFunc_id : Id TIndexFunc;
  IndexFunc_def : @FuncDef Range NtString Maybe IndexFamily;
  IndexFunc_declarations : list Declaration;
  IndexFunc_derived : list (Id TIndexFunc);
  IndexFunc_uses : list (Use Range)
}.

#[export] Instance IndexFunc_LtOp : LtOp IndexFunc :=
  fun a other => IndexFunc_id a <<? IndexFunc_id other.

Record IndexVar : Type := MkIndexVar {
  IndexVar_usr : Usr;
  IndexVar_id : Id TIndexVar;
  IndexVar_def : @VarDef Range NtString Maybe IndexFamily;
  IndexVar_declarations : list (Use Range);
  IndexVar_uses : list (Use Range)
}.

#[export] Instance IndexVar_LtOp : LtOp IndexVar :=
  fun a other => IndexVar_id a <<? IndexVar_id other.
End Entities.

(** Two values that [operator<] does not order. *)
Definition unordered {A : Type} `{LtOp A} (a b : A) : Prop :=
  (a <<? b) = false /\ (b <<? a) = false.

(** [operator<] of [X] compares the id found by [key] and nothing else: it
    is a strict weak order whose classes of unordered values are the values
    with one id. *)
Definition ordered_by_id {X : Type} {T : IdTag} `{LtOp X} (key : X -> Id T)
  : Prop :=
  (forall a b : X, (a <<? b) = true <-> id (key a) < id (key b)) /\
  (forall a : X, (a <<? a) = false) /\
  (forall a b c : X, (a <<? b) = true -> (b <<? c) = true -> (a <<? c) = true) /\
  (forall a b : X, unordered a b <-> key a = key b) /\
  (forall a b c : X, unordered a b -> unordered b c -> unordered a c).

(** Two variable entities with the same id and different defs. *)
Definition var_entity (d : IndexVarDef) : @IndexVar PosRange string option Z :=
  MkIndexVar 17 (Id_of_raw TIndexVar 3) d [] [].

(** ** Laws of the basic instances *)

#[export] Instance Z_EqOpSpec : EqOpSpec Z.
Proof. intros a b. apply Z.eqb_eq. Qed.

#[export] Instance Z_StrictTotal : StrictTotal Z.
Proof.
  split; unfold lt_op, Z_LtOp; intros.
  - apply Z.ltb_irrefl.
  - rewrite Z.ltb_lt in *. lia.
  - rewrite Z.ltb_ge in *. lia.
Qed.

Lemma Id_ext {T : IdTag} (a b : Id T) : id a = id b -> a = b.
Proof. destruct a, b; simpl; intros ->; reflexivity. Qed.

#[export] Instance Id_EqOpSpec {T : IdTag} : EqOpSpec (Id T).
Proof.
  intros a b. unfold eq_op, Id_EqOp. rewrite Z.eqb_eq. split.
  - apply Id_ext.
  - intros ->; reflexivity.
Qed.

#[export] Instance Id_StrictTotal {T : IdTag} : StrictTotal (Id T).
Proof.
  split; unfold lt_op, Id_LtOp; intros.
  - apply Z.ltb_irrefl.
  - rewrite Z.ltb_lt in *. lia.
  - apply Id_ext. rewrite Z.ltb_ge in *. lia.
Qed.

Lemma implicit_widening_allowed (U : IdTag) : implicit_conversion TVoid U = true.
Proof. reflexivity. Qed.

Lemma narrowing_is_explicit (T : IdTag) :
  implicit_conversion T TVoid = false <-> T <> TVoid.
Proof.
  destruct T; simpl; split; intro H;
    try reflexivity; try discriminate; try (now elim H).
Qed.

(** C4: a default-constructed [Id<K>] holds the all-ones 32-bit value
    [2^32 - 1]; [Valid()] is false exactly on that raw value and true on
    every other one. *)
Theorem Id_invalid_sentinel :
  forall K : IdTag,
    id (Id_default K) = 2 ^ 32 - 1 /\
    Id_Valid (Id_default K) = false /\
    (forall i : Id K, Id_Valid i = false <-> id i = 2 ^ 32 - 1) /\
    (forall i : Id K, Id_Valid i = true <-> id i <> 2 ^ 32 - 1).
Proof.
  intros K.
  assert (Hs : RawId_of (-1) = 2 ^ 32 - 1) by reflexivity.
  repeat split; unfold Id_Valid; rewrite ?Hs; simpl id.
  - rewrite negb_false_iff. apply Z.eqb_eq.
  - intros ->. reflexivity.
  - rewrite negb_true_iff. apply Z.eqb_neq.
  - intros H. rewrite negb_true_iff. apply Z.eqb_neq. exact H.
Qed.

(** C5: equality, order and hash of [Id<K>] are those of the raw value:
    [a == b] iff [a.id = b.id], [a < b] iff [a.id < b.id], which makes [<] a
    strict total order, and [hash(a)] is the hash of the raw integer. *)
Theorem Id_compare_by_raw :
  forall (hash_RawId : RawId -> Z) (K : IdTag) (a b c : Id K),
    ((a ==? b) = true <-> id a = id b) /\
    (Id_ne a b = negb (a ==? b)) /\
    ((a <<? b) = true <-> id a < id b) /\
    Id_hash hash_RawId a = hash_RawId (id a) /\
    (id a = id b -> Id_hash hash_RawId a = Id_hash hash_RawId b) /\
    (a <<? a) = false /\
    ((a <<? b) = true -> (b <<? c) = true -> (a <<? c) = true) /\
    ((a <<? b) = true /\ (a ==? b) = false /\ (b <<? a) = false \/
     (a <<? b) = false /\ (a ==? b) = true /\ (b <<? a) = false \/
     (a <<? b) = false /\ (a ==? b) = false /\ (b <<? a) = true).
Proof.
  intros h K a b c. unfold eq_op, lt_op, Id_EqOp, Id_LtOp, Id_ne, Id_hash.
  repeat match goal with |- _ /\ _ => split end; try reflexivity.
  - apply Z.eqb_eq.
  - apply Z.ltb_lt.
  - intros ->. reflexivity.
  - apply Z.ltb_irrefl.
  - rewrite !Z.ltb_lt. lia.
  - destruct (Z.lt_trichotomy (id a) (id b)) as [H | [H | H]].
    + left. rewrite Z.ltb_lt, Z.eqb_neq, Z.ltb_ge. lia.
    + right; left. rewrite Z.ltb_ge, Z.eqb_eq, Z.ltb_ge. lia.
    + right; right. rewrite Z.ltb_ge, Z.eqb_neq, Z.ltb_lt. lia.
Qed.

(** C6: kind conversions keep the raw value; widening an [Id<K>] to
    [Id<void>] and converting back explicitly gives the original id. *)
Theorem Id_widen_narrow :
  forall (K : IdTag) (a : Id K),
    id (Id_widen a) = id a /\
    (forall v : Id TVoid, id (Id_narrow K v) = id v) /\
    Id_narrow K (Id_widen a) = a /\
    (Id_narrow K (Id_widen a) ==? a) = true.
Proof.
  intros K a. repeat split.
  - destruct a; reflexivity.
  - destruct a. unfold eq_op, Id_EqOp. simpl. apply Z.eqb_refl.
Qed.

(** ** Laws of the enumerations *)

Lemma SymbolKind_value_inj (a b : SymbolKind) :
  SymbolKind_value a = SymbolKind_value b -> a = b.
Proof. destruct a, b; simpl; intros H; try reflexivity; discriminate H. Qed.

#[export] Instance SymbolKind_EqOpSpec : EqOpSpec SymbolKind.
Proof.
  intros a b. unfold eq_op, SymbolKind_EqOp. rewrite Z.eqb_eq. split.
  - apply SymbolKind_value_inj.
  - intros ->; reflexivity.
Qed.

#[export] Instance SymbolKind_StrictTotal : StrictTotal SymbolKind.
Proof.
  split; unfold lt_op, SymbolKind_LtOp; intros.
  - apply Z.ltb_irrefl.
  - rewrite Z.ltb_lt in *. lia.
  - apply SymbolKind_value_inj. rewrite Z.ltb_ge in *. lia.
Qed.

Lemma Role_ext (a b : Role) : role_bits a = role_bits b -> a = b.
Proof. destruct a, b; simpl; intros ->; reflexivity. Qed.

#[export] Instance Role_EqOpSpec : EqOpSpec Role.
Proof.
  intros a b. unfold eq_op, Role_EqOp. rewrite Z.eqb_eq. split.
  - apply Role_ext.
  - intros ->; reflexivity.
Qed.

#[export] Instance Role_StrictTotal : StrictTotal Role.
Proof.
  split; unfold lt_op, Role_LtOp; intros.
  - apply Z.ltb_irrefl.
  - rewrite Z.ltb_lt in *. lia.
  - apply Role_ext. rewrite Z.ltb_ge in *. lia.
Qed.

Lemma lsSymbolKind_tag_inj (a b : lsSymbolKind) :
  lsSymbolKind_tag a = lsSymbolKind_tag b -> a = b.
Proof. destruct a, b; simpl; intros H; try reflexivity; discriminate H. Qed.

#[export] Instance lsSymbolKind_EqOpSpec : EqOpSpec lsSymbolKind.
Proof.
  intros a b. unfold eq_op, lsSymbolKind_EqOp. rewrite Z.eqb_eq. split.
  - apply lsSymbolKind_tag_inj.
  - intros ->; reflexivity.
Qed.

(** ** Generic consequences of the laws *)

Section OrderFacts.
Context {A : Type} `{EqOp A} `{LtOp A}.
Context {A_eq : EqOpSpec A} {A_lt : StrictTotal A}.

Lemma eq_op_true_refl (a : A) : (a ==? a) = true.
Proof. apply eq_op_spec. reflexivity. Qed.

Lemma eq_op_false (a b : A) : (a ==? b) = false <-> a <> b.
Proof.
  split.
  - intros E ->. rewrite eq_op_true_refl in E. discriminate.
  - intros N. destruct (a ==? b) eqn:E; [|reflexivity].
    apply eq_op_spec in E. contradiction.
Qed.

Lemma lt_op_asym (a b : A) : (a <<? b) = true -> (b <<? a) = false.
Proof.
  intros L. destruct (b <<? a) eqn:G; [|reflexivity].
  pose proof (lt_op_trans _ _ _ L G) as C.
  rewrite lt_op_irrefl in C. discriminate.
Qed.

Lemma lt_op_neq (a b : A) : (a <<? b) = true -> a <> b.
Proof. intros L ->. rewrite lt_op_irrefl in L. discriminate. Qed.

(** Exactly one of [a < b], [a == b], [b < a]. *)
Lemma lt_op_trichotomy (a b : A) :
  (a <<? b) = true /\ (a ==? b) = false /\ (b <<? a) = false \/
  (a <<? b) = false /\ (a ==? b) = true /\ (b <<? a) = false \/
  (a <<? b) = false /\ (a ==? b) = false /\ (b <<? a) = true.
Proof.
  destruct (a <<? b) eqn:L.
  - left. repeat split.
    + apply eq_op_false. apply lt_op_neq. exact L.
    + apply lt_op_asym. exact L.
  - right. destruct (b <<? a) eqn:G.
    + right. repeat split. apply eq_op_false.
      intros E. apply (lt_op_neq _ _ G). symmetry. exact E.
    + left. repeat split. apply eq_op_spec. apply lt_op_connex; assumption.
Qed.
End OrderFacts.

(** The laws pass to tuples. *)

#[export] Instance unit_EqOpSpec : EqOpSpec unit.
Proof. intros [] []. split; reflexivity. Qed.

#[export] Instance unit_StrictTotal : StrictTotal unit.
Proof.
  split.
  - reflexivity.
  - intros a b c L. discriminate L.
  - intros [] []. reflexivity.
Qed.

Section TupleLaws.
Context {A B : Type}.
Context {A_e : EqOp A} {A_l : LtOp A} {B_e : EqOp B} {B_l : LtOp B}.
Context {A_eq : EqOpSpec A} {A_lt : StrictTotal A}.
Context {B_eq : EqOpSpec B} {B_lt : StrictTotal B}.

#[export] Instance tuple_EqOpSpec : EqOpSpec (A * B).
Proof.
  intros [a b] [c d]. unfold eq_op at 1, tuple_EqOp. simpl.
  rewrite andb_true_iff, !eq_op_spec. split.
  - intros [-> ->]. reflexivity.
  - intros E. injection E as -> ->. split; reflexivity.
Qed.

(** [std::tuple]'s [operator<] is the lexicographic order. *)
Lemma tuple_lt_lex (a c : A) (b d : B) :
  ((a, b) <<? (c, d)) = true <->
  (a <<? c) = true \/ a = c /\ (b <<? d) = true.
Proof.
  unfold lt_op at 1, tuple_LtOp. simpl.
  rewrite orb_true_iff, andb_true_iff, negb_true_iff. split.
  - intros [L | [G L]]; [left; exact L|].
    destruct (a <<? c) eqn:E; [left; reflexivity|].
    right. split; [apply lt_op_connex; assumption | exact L].
  - intros [L | [-> L]]; [left; exact L|].
    right. split; [apply lt_op_irrefl | exact L].
Qed.

#[export] Instance tuple_StrictTotal : StrictTotal (A * B).
Proof.
  split.
  - intros [a b]. destruct ((a, b) <<? (a, b)) eqn:E; [|reflexivity].
    apply tuple_lt_lex in E. destruct E as [E | [_ E]].
    + rewrite lt_op_irrefl in E. discriminate.
    + rewrite lt_op_irrefl in E. discriminate.
  - intros [a b] [c d] [e f] L1 L2.
    apply tuple_lt_lex in L1. apply tuple_lt_lex in L2. apply tuple_lt_lex.
    destruct L1 as [L1 | [-> L1]], L2 as [L2 | [-> L2]].
    + left. exact (lt_op_trans _ _ _ L1 L2).
    + left. exact L1.
    + left. exact L2.
    + right. split; [reflexivity | exact (lt_op_trans _ _ _ L1 L2)].
  - intros [a b] [c d] L1 L2.
    unfold lt_op, tuple_LtOp in L1, L2. simpl in L1, L2.
    apply orb_false_iff in L1. destruct L1 as [L1 R1].
    apply orb_false_iff in L2. destruct L2 as [L2 R2].
    rewrite L2 in R1. rewrite L1 in R2. simpl in R1, R2.
    f_equal; apply lt_op_connex; assumption.
Qed.
End TupleLaws.

(** ** SymbolIdx *)

Lemma SymbolIdx_ext (a b : SymbolIdx) :
  sym_id a = sym_id b -> sym_kind a = sym_kind b -> a = b.
Proof. destruct a, b; simpl; intros -> ->; reflexivity. Qed.

Lemma SymbolIdx_lt_lex (a b : SymbolIdx) :
  (a <<? b) = true <->
  id (sym_id a) < id (sym_id b) \/
  id (sym_id a) = id (sym_id b) /\
  SymbolKind_value (sym_kind a) < SymbolKind_value (sym_kind b).
Proof.
  unfold lt_op at 1, SymbolIdx_LtOp.
  unfold eq_op, Id_EqOp, lt_op, Id_LtOp, SymbolKind_LtOp.
  destruct (id (sym_id a) =? id (sym_id b)) eqn:E; simpl.
  - apply Z.eqb_eq in E. rewrite Z.ltb_lt. lia.
  - apply Z.eqb_neq in E. rewrite Z.ltb_lt. lia.
Qed.

Lemma SymbolIdx_eq_spec (a b : SymbolIdx) : (a ==? b) = true <-> a = b.
Proof.
  unfold eq_op at 1, SymbolIdx_EqOp.
  rewrite andb_true_iff, !eq_op_spec. split.
  - intros [E1 E2]. apply SymbolIdx_ext; assumption.
  - intros ->. split; reflexivity.
Qed.

Lemma SymbolIdx_eq_values (a b : SymbolIdx) :
  (a ==? b) = true <->
  id (sym_id a) = id (sym_id b) /\
  SymbolKind_value (sym_kind a) = SymbolKind_value (sym_kind b).
Proof.
  unfold eq_op at 1, SymbolIdx_EqOp.
  unfold eq_op, Id_EqOp, SymbolKind_EqOp.
  rewrite andb_true_iff, !Z.eqb_eq. reflexivity.
Qed.

Lemma bool_false_by (x : bool) (P : Prop) : (x = true <-> P) -> ~ P -> x = false.
Proof. intros I N. destruct x; [|reflexivity]. exfalso. apply N, I. reflexivity. Qed.

(** C9: [SymbolIdx::operator<] is the lexicographic strict order on
    (id, kind) and [operator==] is component-wise equality; the order is
    irreflexive and transitive, and exactly one of [a < b], [a == b],
    [b < a] holds. *)
Theorem SymbolIdx_strict_total_order :
  forall a b c : SymbolIdx,
    ((a <<? b) = true <->
     id (sym_id a) < id (sym_id b) \/
     id (sym_id a) = id (sym_id b) /\
     SymbolKind_value (sym_kind a) < SymbolKind_value (sym_kind b)) /\
    ((a ==? b) = true <->
     id (sym_id a) = id (sym_id b) /\ sym_kind a = sym_kind b) /\
    (a <<? a) = false /\
    ((a <<? b) = true -> (b <<? c) = true -> (a <<? c) = true) /\
    ((a <<? b) = true /\ (a ==? b) = false /\ (b <<? a) = false \/
     (a <<? b) = false /\ (a ==? b) = true /\ (b <<? a) = false \/
     (a <<? b) = false /\ (a ==? b) = false /\ (b <<? a) = true).
Proof.
  intros a b c.
  split; [apply SymbolIdx_lt_lex|].
  split.
  { rewrite SymbolIdx_eq_values. split.
    - intros [E1 E2]. split; [exact E1 | apply SymbolKind_value_inj, E2].
    - intros [E1 ->]. split; [exact E1 | reflexivity]. }
  split.
  { apply (bool_false_by _ _ (SymbolIdx_lt_lex a a)). lia. }
  split.
  { rewrite !SymbolIdx_lt_lex. lia. }
  pose proof (SymbolIdx_lt_lex a b) as Lab.
  pose proof (SymbolIdx_lt_lex b a) as Lba.
  pose proof (SymbolIdx_eq_values a b) as Eab.
  destruct (Z.lt_trichotomy (id (sym_id a)) (id (sym_id b))) as [I | [I | I]];
    [ left | | right; right ].
  - repeat split;
      [ apply Lab | apply (bool_false_by _ _ Eab) | apply (bool_false_by _ _ Lba) ];
      lia.
  - destruct (Z.lt_trichotomy (SymbolKind_value (sym_kind a))
                              (SymbolKind_value (sym_kind b))) as [K | [K | K]];
      [ left | right; left | right; right ].
    + repeat split;
        [ apply Lab | apply (bool_false_by _ _ Eab) | apply (bool_false_by _ _ Lba) ];
        lia.
    + repeat split;
        [ apply (bool_false_by _ _ Lab) | apply Eab | apply (bool_false_by _ _ Lba) ];
        lia.
    + repeat split;
        [ apply (bool_false_by _ _ Lab) | apply (bool_false_by _ _ Eab) | apply Lba ];
        lia.
  - repeat split;
      [ apply (bool_false_by _ _ Lab) | apply (bool_false_by _ _ Eab) | apply Lba ];
      lia.
Qed.

(** ** Orders obtained through an injection into a tuple *)

Section Transport.
Context {X T : Type}.
Context {X_e : EqOp X} {X_l : LtOp X} {T_e : EqOp T} {T_l : LtOp T}.
Context {T_eq : EqOpSpec T} {T_lt : StrictTotal T}.
Variable f : X -> T.
Hypothesis f_inj : forall x y : X, f x = f y -> x = y.
Hypothesis f_eq : forall x y : X, (x ==? y) = (f x ==? f y).
Hypothesis f_lt : forall x y : X, (x <<? y) = (f x <<? f y).

Lemma EqOpSpec_by : EqOpSpec X.
Proof.
  intros x y. rewrite f_eq, eq_op_spec. split.
  - apply f_inj.
  - intros ->. reflexivity.
Qed.

Lemma StrictTotal_by : StrictTotal X.
Proof.
  split.
  - intros x. rewrite f_lt. apply lt_op_irrefl.
  - intros x y z. rewrite !f_lt. apply lt_op_trans.
  - intros x y. rewrite !f_lt. intros L G. apply f_inj.
    apply lt_op_connex; assumption.
Qed.
End Transport.

(** The idiom [!(a == c) ? a < c : b < d] is the tuple order on pairs. *)
Lemma cond_lt_is_tuple_lt {A B : Type}
      `{EqOpSpec A} {A_l : LtOp A} {A_lt : StrictTotal A} {B_l : LtOp B}
      (a c : A) (b d : B) :
  (if negb (a ==? c) then a <<? c else b <<? d) =
  ((a, (b, tt)) <<? (c, (d, tt))).
Proof.
  cbv [lt_op tuple_LtOp unit_LtOp fst snd].
  rewrite andb_false_r, orb_false_r.
  change (A_l a c) with (a <<? c). change (A_l c a) with (c <<? a).
  change (B_l b d) with (b <<? d).
  destruct (a ==? c) eqn:E; simpl.
  - apply eq_op_spec in E. subst c. rewrite lt_op_irrefl. reflexivity.
  - destruct (a <<? c) eqn:L; simpl; [reflexivity|].
    destruct (c <<? a) eqn:G; simpl; [reflexivity|].
    exfalso. assert (a = c) by (apply lt_op_connex; assumption).
    subst c. rewrite (proj2 (eq_op_spec a a) eq_refl) in E. discriminate.
Qed.

(** ** Position and Range satisfy the laws *)

Lemma Position_tuple_inj (p q : Position) :
  Position_tuple p = Position_tuple q -> p = q.
Proof. destruct p, q. unfold Position_tuple. simpl. congruence. Qed.

#[export] Instance Position_EqOpSpec : EqOpSpec Position.
Proof.
  apply (EqOpSpec_by Position_tuple Position_tuple_inj).
  intros x y.
  cbv [eq_op Position_EqOp tuple_EqOp unit_EqOp Z_EqOp Position_tuple fst snd].
  rewrite andb_true_r. reflexivity.
Qed.

#[export] Instance Position_StrictTotal : StrictTotal Position.
Proof.
  apply (StrictTotal_by Position_tuple Position_tuple_inj).
  intros x y. unfold lt_op at 1, Position_LtOp.
  apply (cond_lt_is_tuple_lt (line x) (line y) (column x) (column y)).
Qed.

Lemma PosRange_tuple_inj (r s : PosRange) :
  PosRange_tuple r = PosRange_tuple s -> r = s.
Proof. destruct r, s. unfold PosRange_tuple. simpl. congruence. Qed.

#[export] Instance PosRange_EqOpSpec : EqOpSpec PosRange.
Proof.
  apply (EqOpSpec_by PosRange_tuple PosRange_tuple_inj).
  intros x y.
  cbv [eq_op PosRange_EqOp tuple_EqOp unit_EqOp PosRange_tuple fst snd].
  rewrite andb_true_r. reflexivity.
Qed.

#[export] Instance PosRange_StrictTotal : StrictTotal PosRange.
Proof.
  apply (StrictTotal_by PosRange_tuple PosRange_tuple_inj).
  intros x y. unfold lt_op at 1, PosRange_LtOp.
  apply (cond_lt_is_tuple_lt (start x) (start y) (end_ x) (end_ y)).
Qed.

(** ** Reference *)

Section ReferenceOrder.
Context {Range : Type} {Range_EqOp : EqOp Range} {Range_LtOp : LtOp Range}.
Context {Range_eq : EqOpSpec Range} {Range_lt : StrictTotal Range}.

Lemma ToTuple_inj (a b : Reference Range) : ToTuple a = ToTuple b -> a = b.
Proof. destruct a, b. unfold ToTuple. simpl. congruence. Qed.

#[export] Instance Reference_EqOpSpec : EqOpSpec (Reference Range).
Proof.
  apply (EqOpSpec_by ToTuple ToTuple_inj). intros x y. reflexivity.
Qed.

#[export] Instance Reference_StrictTotal : StrictTotal (Reference Range).
Proof.
  apply (StrictTotal_by ToTuple ToTuple_inj). intros x y. reflexivity.
Qed.

Lemma Reference_lt_lex (a b : Reference Range) :
  (a <<? b) = true <-> Reference_lex a b.
Proof.
  unfold lt_op at 1, Reference_LtOp, ToTuple, Reference_lex.
  rewrite !tuple_lt_lex.
  unfold lt_op at 5, unit_LtOp.
  unfold lt_op at 2, Id_LtOp. unfold lt_op at 2, SymbolKind_LtOp.
  unfold lt_op at 2, Role_LtOp. rewrite !Z.ltb_lt.
  split.
  - intros [L | [E [L | [E2 [L | [E3 [L | [_ L]]]]]]]].
    + left; exact L.
    + right; split; [exact E|]. left; exact L.
    + right; split; [exact E|]. right; split; [rewrite E2; reflexivity|].
      left; exact L.
    + right; split; [exact E|]. right; split; [rewrite E2; reflexivity|].
      right; split; [exact E3 | exact L].
    + discriminate L.
  - intros [L | [E [L | [E2 [L | [E3 L]]]]]].
    + left; exact L.
    + right; split; [exact E|]. left; exact L.
    + right; split; [exact E|]. right; split; [apply Id_ext, E2|].
      left; exact L.
    + right; split; [exact E|]. right; split; [apply Id_ext, E2|].
      right; split; [exact E3|]. left; exact L.
Qed.

Lemma Reference_eq_components (a b : Reference Range) :
  (a ==? b) = true <->
  (range a ==? range b) = true /\ (ref_id a ==? ref_id b) = true /\
  (ref_kind a ==? ref_kind b) = true /\ (role a ==? role b) = true.
Proof.
  cbv [eq_op Reference_EqOp ToTuple tuple_EqOp unit_EqOp fst snd].
  rewrite !andb_true_iff. tauto.
Qed.
End ReferenceOrder.

(** C3: [Reference::operator<] is the lexicographic order on
    (range, id, kind, role), so the range is the primary key and id, kind
    and role break ties; [Reference::operator==] holds exactly when all four
    components are equal; the order is a strict total order, which makes
    sorting with it deterministic.  [Use] and [SymbolRef] inherit both. *)
Theorem Reference_order_lexicographic :
  forall (Range : Type) (Range_EqOp : EqOp Range) (Range_LtOp : LtOp Range),
    EqOpSpec Range -> StrictTotal Range ->
    forall a b c : Reference Range,
      ((a <<? b) = true <-> Reference_lex a b) /\
      ((a ==? b) = true <->
       range a = range b /\ ref_id a = ref_id b /\
       ref_kind a = ref_kind b /\ role a = role b) /\
      ((range a <<? range b) = true -> (a <<? b) = true) /\
      ((range b <<? range a) = true -> (a <<? b) = false) /\
      (a <<? a) = false /\
      ((a <<? b) = true -> (b <<? c) = true -> (a <<? c) = true) /\
      ((a <<? b) = true /\ (a ==? b) = false /\ (b <<? a) = false \/
       (a <<? b) = false /\ (a ==? b) = true /\ (b <<? a) = false \/
       (a <<? b) = false /\ (a ==? b) = false /\ (b <<? a) = true) /\
      (forall (u v : Use Range),
          (u <<? v) = (use_base u <<? use_base v) /\
          (u ==? v) = (use_base u ==? use_base v)).
Proof.
  intros Range Re Rl Req Rlt a b c.
  split; [apply Reference_lt_lex|].
  split.
  { rewrite Reference_eq_components, !eq_op_spec. tauto. }
  split.
  { intros L. apply Reference_lt_lex. left. exact L. }
  split.
  { intros L. apply lt_op_asym. apply Reference_lt_lex. left. exact L. }
  split; [apply lt_op_irrefl|].
  split; [apply lt_op_trans|].
  split; [apply lt_op_trichotomy|].
  intros u v. split; reflexivity.
Qed.

(** The order at three concrete references over [PosRange]. *)
Lemma Reference_order_lexicographic_witness :
  let r1 := MkPosRange (MkPosition 1 1) (MkPosition 1 5) in
  let r2 := MkPosRange (MkPosition 2 1) (MkPosition 2 3) in
  let a := MkReference r1 (Id_of_raw TVoid 7) SymbolKind_Var Role_Reference in
  let b := MkReference r1 (Id_of_raw TVoid 7) SymbolKind_Var Role_Call in
  let c := MkReference r2 (Id_of_raw TVoid 0) SymbolKind_Type Role_Declaration in
  EqOpSpec PosRange /\ StrictTotal PosRange /\
  ((a <<? b) = true -> (b <<? c) = true -> (a <<? c) = true) /\
  (a <<? b) = true /\ (b <<? c) = true.
Proof.
  intros r1 r2 a b c.
  split; [exact PosRange_EqOpSpec|].
  split; [exact PosRange_StrictTotal|].
  split.
  - exact (proj1 (proj2 (proj2 (proj2 (proj2 (proj2
      (Reference_order_lexicographic PosRange _ _
         PosRange_EqOpSpec PosRange_StrictTotal a b c))))))).
  - split; reflexivity.
Defined.

(** ** Reflexivity of [operator==] *)

Lemma EqOpSpec_refl {A : Type} `{EqOpSpec A} : EqOpRefl A.
Proof. intros a. apply eq_op_spec. reflexivity. Qed.

#[export] Instance Id_EqOpRefl {T : IdTag} : EqOpRefl (Id T) := EqOpSpec_refl.
#[export] Instance SymbolKind_EqOpRefl : EqOpRefl SymbolKind := EqOpSpec_refl.
#[export] Instance Role_EqOpRefl : EqOpRefl Role := EqOpSpec_refl.
#[export] Instance lsSymbolKind_EqOpRefl : EqOpRefl lsSymbolKind := EqOpSpec_refl.
#[export] Instance PosRange_EqOpRefl : EqOpRefl PosRange := EqOpSpec_refl.

#[export] Instance string_EqOpRefl : EqOpRefl string.
Proof. intros s. apply String.eqb_refl. Qed.

#[export] Instance StorageClass_EqOpRefl : EqOpRefl StorageClass.
Proof. intros s. apply Z.eqb_refl. Qed.

#[export] Instance vector_EqOpRefl {A : Type} `{EqOpRefl A} : EqOpRefl (list A).
Proof.
  intros xs. unfold eq_op, vector_EqOp.
  induction xs as [|x xs IH]; simpl.
  - reflexivity.
  - rewrite eq_op_refl. exact IH.
Qed.

Section ReferenceRefl.
Context {Range : Type} {Range_EqOp : EqOp Range} {Range_refl : EqOpRefl Range}.

#[export] Instance Reference_EqOpRefl : EqOpRefl (Reference Range).
Proof.
  intros r.
  cbv [eq_op Reference_EqOp ToTuple tuple_EqOp unit_EqOp fst snd].
  change (Range_EqOp (range r) (range r)) with (range r ==? range r).
  change (Id_EqOp (ref_id r) (ref_id r)) with (ref_id r ==? ref_id r).
  change (SymbolKind_EqOp (ref_kind r) (ref_kind r))
    with (ref_kind r ==? ref_kind r).
  change (Role_EqOp (role r) (role r)) with (role r ==? role r).
  rewrite !eq_op_refl. reflexivity.
Qed.

#[export] Instance Use_EqOpRefl : EqOpRefl (Use Range).
Proof. intros u. unfold eq_op, Use_EqOp. apply Reference_EqOpRefl. Qed.

(** [Use::file] takes no part in the comparison of two uses. *)
Lemma Use_eq_ignores_file (r : Reference Range) (f g : Id TQueryFile) :
  (MkUse r f ==? MkUse r g) = true.
Proof. unfold eq_op, Use_EqOp. simpl. apply Reference_EqOpRefl. Qed.
End ReferenceRefl.

(** ** Entity defs *)

Section DefFacts.
Context {Range : Type} {Range_EqOp : EqOp Range}.
Context {NtString : Type} {NtString_EqOp : EqOp NtString}.
Context {Maybe : Type -> Type}
        {Maybe_EqOp : forall T : Type, EqOp T -> EqOp (Maybe T)}.
Context {F : Family}.

#[local] Abbreviation TypeDef := (@TypeDef Range NtString Maybe F).
#[local] Abbreviation FuncDef := (@FuncDef Range NtString Maybe F).
#[local] Abbreviation VarDef := (@VarDef Range NtString Maybe F).

Lemma TypeDef_eq_relocate (a o : TypeDef) f q s n f' q' s' n' :
  (TypeDef_relocate a f q s n ==? TypeDef_relocate o f' q' s' n') = (a ==? o).
Proof. reflexivity. Qed.

Lemma FuncDef_eq_relocate (a o : FuncDef) f q s n f' q' s' n' :
  (FuncDef_relocate a f q s n ==? FuncDef_relocate o f' q' s' n') = (a ==? o).
Proof. reflexivity. Qed.

Lemma VarDef_eq_relocate (a o : VarDef) f q s n f' q' s' n' :
  (VarDef_relocate a f q s n ==? VarDef_relocate o f' q' s' n') = (a ==? o).
Proof. reflexivity. Qed.

Context {Range_refl : EqOpRefl Range} {NtString_refl : EqOpRefl NtString}.
Context {Maybe_refl : forall (T : Type) (e : EqOp T),
            EqOpRefl T -> EqOpRefl (Maybe T)}.
Context {TypeId_refl : EqOpRefl (TypeId F)} {FuncId_refl : EqOpRefl (FuncId F)}
        {VarId_refl : EqOpRefl (VarId F)}.

#[local] Existing Instance Maybe_refl.

Lemma TypeDef_eq_refl (d : TypeDef) : (d ==? d) = true.
Proof.
  unfold eq_op at 1, TypeDef_EqOp.
  rewrite !eq_op_refl. reflexivity.
Qed.

Lemma FuncDef_eq_refl (d : FuncDef) : (d ==? d) = true.
Proof.
  unfold eq_op at 1, FuncDef_EqOp.
  rewrite !eq_op_refl. reflexivity.
Qed.

Lemma VarDef_eq_refl (d : VarDef) : (d ==? d) = true.
Proof.
  unfold eq_op at 1, VarDef_EqOp.
  rewrite !eq_op_refl. reflexivity.
Qed.
End DefFacts.

Lemma option_eq_refl (T : Type) (e : EqOp T) :
  EqOpRefl T -> EqOpRefl (H := option_eq e) (option T).
Proof. intros r [x|]; [apply r | reflexivity]. Qed.

(** C7: [is_local()] is true exactly when the variable's kind is
    [lsSymbolKind::Variable], and false for every other kind, such as
    Field, Parameter or EnumMember. *)
Theorem VarDef_is_local_iff_Variable :
  forall (Range NtString : Type) (Maybe : Type -> Type) (F : Family)
         (v : @VarDef Range NtString Maybe F),
    (is_local v = true <-> var_kind v = lsSymbolKind_Variable) /\
    (is_local v = false <-> var_kind v <> lsSymbolKind_Variable) /\
    (forall k : lsSymbolKind,
        var_kind v = k ->
        is_local v = match k with lsSymbolKind_Variable => true | _ => false end).
Proof.
  intros Range NtString Maybe F v. unfold is_local.
  split; [apply eq_op_spec|].
  split; [apply eq_op_false|].
  intros k E. rewrite E. destruct k; reflexivity.
Qed.

(** C8: [operator==] of [TypeDef], [FuncDef] and [VarDef] reads neither
    [file] nor [qual_name_offset], [short_name_offset], [short_name_size]:
    its result does not change when these fields change, and two defs that
    differ only in them compare equal. *)
Theorem Def_equality_ignores_file_and_offsets :
  forall (Range : Type) (Range_EqOp : EqOp Range)
         (NtString : Type) (NtString_EqOp : EqOp NtString)
         (Maybe : Type -> Type)
         (Maybe_EqOp : forall T : Type, EqOp T -> EqOp (Maybe T))
         (F : Family),
    EqOpRefl Range -> EqOpRefl NtString ->
    (forall (T : Type) (e : EqOp T), EqOpRefl T -> EqOpRefl (Maybe T)) ->
    EqOpRefl (TypeId F) -> EqOpRefl (FuncId F) -> EqOpRefl (VarId F) ->
    (forall (a o : @TypeDef Range NtString Maybe F) f q s n f' q' s' n',
        (TypeDef_relocate a f q s n ==? TypeDef_relocate o f' q' s' n')
        = (a ==? o)) /\
    (forall (d : @TypeDef Range NtString Maybe F) f q s n,
        (d ==? TypeDef_relocate d f q s n) = true) /\
    (forall (a o : @FuncDef Range NtString Maybe F) f q s n f' q' s' n',
        (FuncDef_relocate a f q s n ==? FuncDef_relocate o f' q' s' n')
        = (a ==? o)) /\
    (forall (d : @FuncDef Range NtString Maybe F) f q s n,
        (d ==? FuncDef_relocate d f q s n) = true) /\
    (forall (a o : @VarDef Range NtString Maybe F) f q s n f' q' s' n',
        (VarDef_relocate a f q s n ==? VarDef_relocate o f' q' s' n')
        = (a ==? o)) /\
    (forall (d : @VarDef Range NtString Maybe F) f q s n,
        (d ==? VarDef_relocate d f q s n) = true).
Proof.
  intros Range Re NtString Ne Maybe Me F Rr Nr Mr Tr Fr Vr.
  split; [intros; apply TypeDef_eq_relocate|].
  split; [intros d f q s n; exact (TypeDef_eq_refl d)|].
  split; [intros; apply FuncDef_eq_relocate|].
  split; [intros d f q s n; exact (FuncDef_eq_refl d)|].
  split; [intros; apply VarDef_eq_relocate|].
  intros d f q s n; exact (VarDef_eq_refl d).
Qed.

(** A variable def, moved to another file and given other offsets, still
    equals the original. *)
Lemma Def_equality_ignores_file_and_offsets_witness :
  let r := MkPosRange (MkPosition 3 5) (MkPosition 3 8) in
  let u := MkUse (MkReference r (Id_of_raw TVoid 2) SymbolKind_Func
                    Role_Definition) (Id_default TQueryFile) in
  let d : IndexVarDef :=
    @MkVarDef PosRange string option IndexFamily
      "int ns::foo"%string "hover"%string EmptyString (Some u) None
      (Id_of_raw TIndexFile 0) (Some (Id_of_raw TIndexType 4))
      4 8 3 lsSymbolKind_Variable StorageClass_None in
  EqOpRefl PosRange /\ EqOpRefl string /\
  (forall (T : Type) (e : EqOp T),
      EqOpRefl T -> EqOpRefl (H := option_eq e) (option T)) /\
  EqOpRefl (TypeId IndexFamily) /\ EqOpRefl (FuncId IndexFamily) /\
  EqOpRefl (VarId IndexFamily) /\
  (eq_op (EqOp := VarDef_EqOp (Maybe_EqOp := @option_eq)) d
     (VarDef_relocate d (Id_of_raw TIndexFile 9) 0 0 0)) = true.
Proof.
  intros r u d.
  split; [exact PosRange_EqOpRefl|].
  split; [exact string_EqOpRefl|].
  split; [exact option_eq_refl|].
  split; [exact Id_EqOpRefl|].
  split; [exact Id_EqOpRefl|].
  split; [exact Id_EqOpRefl|].
  exact (proj2 (proj2 (proj2 (proj2 (proj2
    (Def_equality_ignores_file_and_offsets PosRange _ string _ option
       (@option_eq) IndexFamily PosRange_EqOpRefl string_EqOpRefl
       option_eq_refl Id_EqOpRefl Id_EqOpRefl Id_EqOpRefl)))))
    d (Id_of_raw TIndexFile 9) 0 0 0).
Defined.

(** ** NameMixin::Name *)

Lemma size_t_of_small (z : Z) : 0 <= z < 2 ^ 64 -> size_t_of z = z.
Proof. intros R. unfold size_t_of. apply Z.mod_small. exact R. Qed.

Lemma size_t_of_negative (z : Z) : - 2 ^ 64 <= z < 0 -> size_t_of z = z + 2 ^ 64.
Proof.
  intros R. unfold size_t_of. symmetry.
  apply (Z.mod_unique z (2 ^ 64) (-1) (z + 2 ^ 64)); lia.
Qed.

Lemma get_inside (s : string) (n : nat) :
  (n < String.length s)%nat -> String.get n s <> None.
Proof.
  revert n. induction s as [|c s IH]; intros n L; simpl in L.
  - lia.
  - destruct n as [|n]; simpl.
    + discriminate.
    + apply IH. lia.
Qed.

(** A view with contents reads, at each index, the character of the
    substring it denotes. *)
Lemma sv_contents_at (buf : string) (v : string_view) (s : string) (i : Z) :
  sv_contents buf v = Some s -> 0 <= i < sv_size v ->
  sv_at buf v i = String.get (Z.to_nat i) s.
Proof.
  unfold sv_contents, sv_in_bounds, sv_at. intros C R.
  destruct (0 <=? sv_data v) eqn:D0; simpl in C; [|discriminate C].
  destruct (sv_data v + sv_size v <=? Z.of_nat (String.length buf)) eqn:D1;
    [|discriminate C].
  injection C as <-.
  apply Z.leb_le in D0.
  replace (0 <=? i) with true by (symmetry; apply Z.leb_le; lia).
  replace (i <? sv_size v) with true by (symmetry; apply Z.ltb_lt; lia).
  replace (0 <=? sv_data v + i) with true by (symmetry; apply Z.leb_le; lia).
  simpl. rewrite String.substring_correct1 by lia.
  f_equal. lia.
Qed.

Lemma sv_in_bounds_reads_inside (buf : string) (v : string_view) :
  sv_in_bounds buf v = true -> sv_reads_inside buf v.
Proof.
  unfold sv_in_bounds, sv_reads_inside, sv_at. intros B i R.
  apply andb_true_iff in B. destruct B as [D0 D1].
  apply Z.leb_le in D0. apply Z.leb_le in D1.
  replace (0 <=? i) with true by (symmetry; apply Z.leb_le; lia).
  replace (i <? sv_size v) with true by (symmetry; apply Z.ltb_lt; lia).
  replace (0 <=? sv_data v + i) with true by (symmetry; apply Z.leb_le; lia).
  simpl. apply get_inside. lia.
Qed.

Section NameFacts.
Context {D : Type} `{NameMembers D}.
Variable self : D.
Hypothesis typed : NameMembers_typed self.
Hypothesis offsets : Name_offsets_ok self.
Hypothesis size_nonneg : 0 <= short_name_size self.

Lemma Name_unqualified :
  Name self false =
  MkStringView (short_name_offset self) (short_name_size self).
Proof.
  unfold Name. f_equal. apply size_t_of_small.
  destruct typed as (_ & _ & T). unfold int16_t in T. lia.
Qed.

Lemma Name_qualified :
  Name self true =
  MkStringView (qual_name_offset self)
    (short_name_offset self - qual_name_offset self + short_name_size self).
Proof.
  unfold Name. f_equal. apply size_t_of_small.
  destruct typed as (T1 & T2 & T3). destruct offsets as (O1 & O2).
  unfold int16_t in *. lia.
Qed.

Lemma Name_in_bounds_holds : Name_in_bounds self.
Proof.
  unfold Name_in_bounds. rewrite Name_qualified, Name_unqualified.
  unfold sv_in_bounds. simpl.
  destruct offsets as (O1 & O2).
  repeat split; try lia; apply andb_true_iff; split; apply Z.leb_le; lia.
Qed.

Lemma Name_returns_names_holds : Name_returns_names self.
Proof.
  destruct Name_in_bounds_holds as (Bq & Bu & _).
  unfold Name_returns_names, sv_contents. rewrite Bq, Bu.
  rewrite Name_qualified, Name_unqualified. simpl. split; reflexivity.
Qed.
End NameFacts.

Example Name_method_m_short :
  sv_contents (detailed_name method_m) (Name method_m false) = Some "m"%string.
Proof. reflexivity. Qed.

Example Name_method_m_qualified :
  sv_contents (detailed_name method_m) (Name method_m true)
  = Some "n::C::m"%string.
Proof. reflexivity. Qed.

Example Name_negative_size_view :
  Name type_negative_size false = MkStringView 0 (2 ^ 64 - 1).
Proof. reflexivity. Qed.

(** With [short_name_size = -1] the stated precondition holds, yet the
    unqualified view has [2^64 - 1] characters and denotes no substring. *)
Lemma Name_returns_names_counterexample :
  NameMembers_typed type_negative_size /\
  Name_offsets_ok type_negative_size /\
  sv_contents (detailed_name type_negative_size)
              (Name type_negative_size false) = None /\
  ~ Name_returns_names type_negative_size.
Proof.
  split; [unfold NameMembers_typed, int16_t; simpl; lia|].
  split; [unfold Name_offsets_ok; simpl; lia|].
  split; [reflexivity|].
  intros [C _]. vm_compute in C. discriminate C.
Qed.

(** C2 (amended): for every def whose offsets satisfy
    [0 <= qual_name_offset <= short_name_offset],
    [short_name_offset + short_name_size <= length detailed_name] and
    [0 <= short_name_size], [Name(false)] is the substring of
    [detailed_name] at [short_name_offset] of length [short_name_size], and
    [Name(true)] the substring at [qual_name_offset] of length
    [short_name_offset - qual_name_offset + short_name_size]. *)
Theorem Name_returns_short_and_qualified_name :
  forall (D : Type) (M : NameMembers D) (self : D),
    NameMembers_typed self ->
    Name_offsets_ok self ->
    0 <= short_name_size self ->
    Name_returns_names self.
Proof.
  intros D M self T O S. apply Name_returns_names_holds; assumption.
Qed.

Lemma Name_returns_short_and_qualified_name_witness :
  NameMembers_typed method_m /\ Name_offsets_ok method_m /\
  0 <= short_name_size method_m /\ Name_returns_names method_m.
Proof.
  assert (T : NameMembers_typed method_m)
    by (unfold NameMembers_typed, int16_t; simpl; lia).
  assert (O : Name_offsets_ok method_m)
    by (unfold Name_offsets_ok; simpl; lia).
  assert (S : 0 <= short_name_size method_m) by (simpl; lia).
  split; [exact T|]. split; [exact O|]. split; [exact S|].
  exact (Name_returns_short_and_qualified_name _ _ method_m T O S).
Defined.

(** With [short_name_size = -2] the stated precondition holds and the
    qualified length is 2, yet the unqualified view leaves the string. *)
Lemma Name_in_bounds_counterexample :
  NameMembers_typed var_negative_size /\
  Name_offsets_ok var_negative_size /\
  sv_in_bounds (detailed_name var_negative_size)
               (Name var_negative_size false) = false /\
  ~ Name_in_bounds var_negative_size.
Proof.
  split; [unfold NameMembers_typed, int16_t; simpl; lia|].
  split; [unfold Name_offsets_ok; simpl; lia|].
  split; [reflexivity|].
  intros (_ & B & _). vm_compute in B. discriminate B.
Qed.

(** C10 (amended): when [0 <= qual_name_offset <= short_name_offset],
    [short_name_offset + short_name_size <= length detailed_name] and
    [0 <= short_name_size], both branches of [Name] build a view whose start
    and length lie within the string, the computed qualified length is not
    negative, and every character of either view is read inside
    [detailed_name]. *)
Theorem Name_never_reads_outside :
  forall (D : Type) (M : NameMembers D) (self : D),
    NameMembers_typed self ->
    Name_offsets_ok self ->
    0 <= short_name_size self ->
    Name_in_bounds self /\
    (forall qualified : bool,
        sv_reads_inside (detailed_name self) (Name self qualified)).
Proof.
  intros D M self T O S.
  pose proof (Name_in_bounds_holds self T O S) as B.
  split; [exact B|].
  destruct B as (Bq & Bu & _).
  intros [|]; apply sv_in_bounds_reads_inside; assumption.
Qed.

Lemma Name_never_reads_outside_witness :
  NameMembers_typed method_m /\ Name_offsets_ok method_m /\
  0 <= short_name_size method_m /\
  Name_in_bounds method_m /\
  sv_reads_inside (detailed_name method_m) (Name method_m true).
Proof.
  assert (T : NameMembers_typed method_m)
    by (unfold NameMembers_typed, int16_t; simpl; lia).
  assert (O : Name_offsets_ok method_m)
    by (unfold Name_offsets_ok; simpl; lia).
  assert (S : 0 <= short_name_size method_m) by (simpl; lia).
  split; [exact T|]. split; [exact O|]. split; [exact S|].
  split.
  - exact (proj1 (Name_never_reads_outside _ _ method_m T O S)).
  - exact (proj2 (Name_never_reads_outside _ _ method_m T O S) true).
Defined.

(** ** RunSafely *)

Lemma N_of_ascii_inj (c d : ascii) : N_of_ascii c = N_of_ascii d -> c = d.
Proof.
  intros E. rewrite <- (ascii_N_embedding c), <- (ascii_N_embedding d), E.
  reflexivity.
Qed.

(** On C strings, [strcmp(e, "0") == 0] says that [e] is the string "0". *)
Lemma strcmp_zero_literal (e : string) :
  c_string e = true -> (strcmp e "0" = 0 <-> e = "0"%string).
Proof.
  intros C. destruct e as [|c e]; simpl.
  - split; [intros E; discriminate E | intros E; discriminate E].
  - simpl in C. apply andb_true_iff in C. destruct C as [_ C].
    destruct (Ascii.eqb_spec c "0"%char) as [-> | N].
    + destruct e as [|d e]; simpl.
      * split; reflexivity.
      * simpl in C. apply andb_true_iff in C. destruct C as [Z0 _].
        apply negb_true_iff in Z0. apply Ascii.eqb_neq in Z0.
        split.
        -- intros E. exfalso. apply Z0. apply N_of_ascii_inj.
           change (N_of_ascii zero) with 0%N. lia.
        -- intros E. discriminate E.
    + split.
      * intros E. exfalso. apply N. apply N_of_ascii_inj.
        change (N_of_ascii "0") with 48%N. lia.
      * intros E. injection E as E _. contradiction.
Qed.

(** C1: [RunSafely] reads [CCLS_CRASH_RECOVERY]; when its value is the
    string "0" the closure is invoked directly and the result is [true];
    for any other value, and when the variable is unset, the closure runs
    under [CRC.RunSafely], whose result is returned. *)
Theorem RunSafely_kill_switch :
  forall (World : Type) (CRC_RunSafely : Fn World -> World -> bool * World)
         (env : option string) (fn : Fn World) (w : World),
    getenv_result env = true ->
    (env = Some "0"%string ->
     RunSafely World CRC_RunSafely env fn w = run_unshielded World fn w /\
     (forall (u : unit) (w' : World),
         fn w = Returned u w' ->
         RunSafely World CRC_RunSafely env fn w = Returned true w')) /\
    (env <> Some "0"%string ->
     RunSafely World CRC_RunSafely env fn w
     = run_shielded World CRC_RunSafely fn w).
Proof.
  intros World CRC env fn w G.
  assert (Sh : (let '(r, w') := CRC fn w in @Returned World bool r w')
               = run_shielded World CRC fn w).
  { unfold run_shielded. destruct (CRC fn w); reflexivity. }
  split.
  - intros ->. unfold RunSafely, run_unshielded. simpl.
    split; [reflexivity|]. intros u w' ->. reflexivity.
  - intros N. unfold RunSafely. destruct env as [e|]; [|exact Sh].
    simpl in G. destruct (strcmp e "0" =? 0) eqn:E; [|exact Sh].
    exfalso. apply N. f_equal.
    apply (strcmp_zero_literal e G). apply Z.eqb_eq. exact E.
Qed.

Lemma RunSafely_kill_switch_witness :
  getenv_result (Some "0"%string) = true /\
  RunSafely nat counting_CRC (Some "0"%string) increment 0%nat
  = Returned true 1%nat.
Proof.
  split; [reflexivity|].
  exact (proj2 (proj1 (RunSafely_kill_switch nat counting_CRC
                         (Some "0"%string) increment 0%nat eq_refl) eq_refl)
           tt 1%nat eq_refl).
Defined.

Example RunSafely_disabled_fault_surfaces :
  RunSafely nat counting_CRC (Some "0"%string) crash 0%nat = Fault.
Proof. reflexivity. Qed.

Example RunSafely_armed_fault_recovered :
  RunSafely nat counting_CRC (Some "1"%string) crash 0%nat = Returned false 0%nat
  /\ RunSafely nat counting_CRC None crash 0%nat = Returned false 0%nat
  /\ RunSafely nat counting_CRC (Some "00"%string) increment 0%nat
     = Returned true 1%nat.
Proof. repeat split. Qed.

(** ** Further properties of Id<T> *)

(** X1: conversions between kinds compose, are undone by converting back and
    are injective; they keep [Valid()], [==], [<] and the hash, and take the
    invalid id of one kind to the invalid id of the other. *)
Theorem Id_convert_preserves :
  forall (hash_RawId : RawId -> Z) (T U V : IdTag) (a b : Id U),
    Id_convert T (Id_convert V a) = Id_convert T a /\
    Id_convert U (Id_convert T a) = a /\
    (Id_convert T a = Id_convert T b -> a = b) /\
    Id_Valid (Id_convert T a) = Id_Valid a /\
    (Id_convert T a ==? Id_convert T b) = (a ==? b) /\
    (Id_convert T a <<? Id_convert T b) = (a <<? b) /\
    Id_hash hash_RawId (Id_convert T a) = Id_hash hash_RawId a /\
    Id_convert T (Id_default U) = Id_default T.
Proof.
  intros h T U V a b.
  split; [reflexivity|].
  split; [destruct a; reflexivity|].
  split.
  { intros E. apply Id_ext. exact (f_equal id E). }
  split; [reflexivity|].
  split; [reflexivity|].
  split; [reflexivity|].
  split; reflexivity.
Qed.

(** ** Entities ordered by id *)

Section OrderByKey.
Context {X : Type} {T : IdTag} {X_l : LtOp X}.
Variable key : X -> Id T.
Hypothesis lt_key : forall a b : X, (a <<? b) = (key a <<? key b).

Lemma unordered_by_key (a b : X) : unordered a b <-> key a = key b.
Proof.
  unfold unordered. rewrite !lt_key. split.
  - intros [L G]. apply lt_op_connex; assumption.
  - intros ->. split; apply lt_op_irrefl.
Qed.

Lemma ordered_by_key : ordered_by_id key.
Proof.
  unfold ordered_by_id.
  split.
  { intros a b. rewrite lt_key. unfold lt_op, Id_LtOp. apply Z.ltb_lt. }
  split.
  { intros a. rewrite lt_key. apply lt_op_irrefl. }
  split.
  { intros a b c. rewrite !lt_key. apply lt_op_trans. }
  split.
  { apply unordered_by_key. }
  intros a b c. rewrite !unordered_by_key. intros -> ->. reflexivity.
Qed.
End OrderByKey.

(** X2: [IndexType], [IndexFunc] and [IndexVar] are ordered by their [id]
    alone:
    [a < b] iff [a.id < b.id], the order is a strict weak order, and two
    entities are unordered exactly when their ids are equal, whatever their
    usr, def, declarations and uses. *)
Theorem Index_entities_ordered_by_id :
  forall (Range NtString : Type) (Maybe : Type -> Type) (Usr : Type),
    ordered_by_id (@IndexType_id Range NtString Maybe Usr) /\
    ordered_by_id (@IndexFunc_id Range NtString Maybe Usr) /\
    ordered_by_id (@IndexVar_id Range NtString Maybe Usr).
Proof.
  intros Range NtString Maybe Usr.
  split; [|split]; apply ordered_by_key; intros a b; reflexivity.
Qed.

Example IndexVar_same_id_unordered :
  var_entity var_negative_size <> var_entity (VarDef_relocate var_negative_size
                                               (Id_of_raw TIndexFile 1) 0 4 1)
  /\ unordered (var_entity var_negative_size)
               (var_entity (VarDef_relocate var_negative_size
                              (Id_of_raw TIndexFile 1) 0 4 1)).
Proof. split; [intros E; discriminate E | split; reflexivity]. Qed.

(** ** References and symbol indices *)

Lemma bool_eq_by (x y : bool) : (x = true <-> y = true) -> x = y.
Proof. destruct x, y; intros [A B]; auto; symmetry; auto. Qed.

Section ReferenceSymbolIdx.
Context {Range : Type} {Range_EqOp : EqOp Range} {Range_LtOp : LtOp Range}.
Context {Range_eq : EqOpSpec Range} {Range_lt : StrictTotal Range}.

Lemma Reference_eq_to_SymbolIdx (a b : Reference Range) :
  (a ==? b) = true ->
  (Reference_to_SymbolIdx a ==? Reference_to_SymbolIdx b) = true.
Proof.
  intros E. apply Reference_eq_components in E.
  destruct E as (_ & Ei & Ek & _).
  unfold eq_op at 1, SymbolIdx_EqOp. simpl. rewrite Ei, Ek. reflexivity.
Qed.

Lemma Reference_lex_same_range (a b : Reference Range) :
  range a = range b ->
  (Reference_lex a b <->
   id (ref_id a) < id (ref_id b) \/
   id (ref_id a) = id (ref_id b) /\
   (SymbolKind_value (ref_kind a) < SymbolKind_value (ref_kind b) \/
    ref_kind a = ref_kind b /\ role_bits (role a) < role_bits (role b))).
Proof.
  intros R. unfold Reference_lex. rewrite R, lt_op_irrefl. split.
  - intros [L | [_ L]]; [discriminate L | exact L].
  - intros L. right. split; [reflexivity | exact L].
Qed.

Lemma SymbolIdx_lt_to_Reference (a b : Reference Range) :
  range a = range b ->
  (Reference_to_SymbolIdx a <<? Reference_to_SymbolIdx b) = true ->
  (a <<? b) = true.
Proof.
  intros R L. apply Reference_lt_lex. apply (Reference_lex_same_range a b R).
  apply SymbolIdx_lt_lex in L. simpl in L.
  destruct L as [L | [E L]]; [left; exact L|].
  right. split; [exact E|]. left. exact L.
Qed.

Lemma Reference_lt_is_SymbolIdx_lt (a b : Reference Range) :
  range a = range b -> role a = role b ->
  (a <<? b) = (Reference_to_SymbolIdx a <<? Reference_to_SymbolIdx b).
Proof.
  intros R Q. apply bool_eq_by.
  rewrite Reference_lt_lex, (Reference_lex_same_range a b R), SymbolIdx_lt_lex.
  simpl. rewrite Q. split.
  - intros [L | [E [L | [_ L]]]]; [left; exact L | right; split; assumption | lia].
  - intros [L | [E L]]; [left; exact L|].
    right. split; [exact E|]. left. exact L.
Qed.
End ReferenceSymbolIdx.

(** X3: [operator SymbolIdx()] agrees with the orders: equal references convert
    to equal symbol indices; among references with one range, the order of
    the symbol indices decides the order of the references, and it is the
    whole order when the roles agree too. *)
Theorem Reference_order_refines_SymbolIdx :
  forall (Range : Type) (Range_EqOp : EqOp Range) (Range_LtOp : LtOp Range),
    EqOpSpec Range -> StrictTotal Range ->
    forall a b : Reference Range,
      ((a ==? b) = true ->
       (Reference_to_SymbolIdx a ==? Reference_to_SymbolIdx b) = true) /\
      (range a = range b ->
       (Reference_to_SymbolIdx a <<? Reference_to_SymbolIdx b) = true ->
       (a <<? b) = true) /\
      (range a = range b -> role a = role b ->
       (a <<? b) = (Reference_to_SymbolIdx a <<? Reference_to_SymbolIdx b)).
Proof.
  intros Range Re Rl Req Rlt a b.
  split; [apply Reference_eq_to_SymbolIdx|].
  split; [apply SymbolIdx_lt_to_Reference|].
  apply Reference_lt_is_SymbolIdx_lt.
Qed.

Lemma Reference_order_refines_SymbolIdx_witness :
  let r := MkPosRange (MkPosition 4 2) (MkPosition 4 9) in
  let a := MkReference r (Id_of_raw TVoid 3) SymbolKind_Type Role_Write in
  let b := MkReference r (Id_of_raw TVoid 3) SymbolKind_Var Role_Read in
  EqOpSpec PosRange /\ StrictTotal PosRange /\
  range a = range b /\
  (Reference_to_SymbolIdx a <<? Reference_to_SymbolIdx b) = true /\
  (a <<? b) = true.
Proof.
  intros r a b.
  split; [exact PosRange_EqOpSpec|].
  split; [exact PosRange_StrictTotal|].
  split; [reflexivity|].
  split; [reflexivity|].
  exact (proj1 (proj2 (Reference_order_refines_SymbolIdx PosRange _ _
                         PosRange_EqOpSpec PosRange_StrictTotal a b))
           eq_refl eq_refl).
Defined.

(** X4: [Use] compares as its [Reference] base: its [file] takes no part in
    [==] or [<], so two uses that differ only in [file] are equal and
    unordered. *)
Theorem Use_comparison_ignores_file :
  forall (Range : Type) (Range_EqOp : EqOp Range) (Range_LtOp : LtOp Range),
    EqOpSpec Range -> StrictTotal Range ->
    forall (u v : Use Range) (f g : Id TQueryFile),
      (MkUse (use_base u) f ==? MkUse (use_base v) g) = (u ==? v) /\
      (MkUse (use_base u) f <<? MkUse (use_base v) g) = (u <<? v) /\
      (MkUse (use_base u) f ==? MkUse (use_base u) g) = true /\
      unordered (MkUse (use_base u) f) (MkUse (use_base u) g).
Proof.
  intros Range Re Rl Req Rlt u v f g.
  split; [reflexivity|].
  split; [reflexivity|].
  split.
  - unfold eq_op, Use_EqOp. simpl.
    apply (proj2 (eq_op_spec (use_base u) (use_base u))). reflexivity.
  - split; unfold lt_op, Use_LtOp; simpl;
      apply (lt_op_irrefl (A := Reference Range)).
Qed.

Lemma Use_comparison_ignores_file_witness :
  let r := MkPosRange (MkPosition 4 2) (MkPosition 4 9) in
  let u := MkUse (MkReference r (Id_of_raw TVoid 3) SymbolKind_Func Role_Call)
                 (Id_of_raw TQueryFile 1) in
  EqOpSpec PosRange /\ StrictTotal PosRange /\
  (MkUse (use_base u) (Id_of_raw TQueryFile 1)
   ==? MkUse (use_base u) (Id_of_raw TQueryFile 2)) = true.
Proof.
  intros r u.
  split; [exact PosRange_EqOpSpec|].
  split; [exact PosRange_StrictTotal|].
  exact (proj1 (proj2 (proj2
    (Use_comparison_ignores_file PosRange _ _
       PosRange_EqOpSpec PosRange_StrictTotal u u
       (Id_of_raw TQueryFile 1) (Id_of_raw TQueryFile 2))))).
Defined.

(** ** Further properties of NameMixin::Name *)

Lemma substring_empty (n m : nat) : String.substring n m EmptyString = EmptyString.
Proof. destruct n, m; reflexivity. Qed.

(** Taking [a + b] characters is taking [a], then [b] more. *)
Lemma substring_split (s : string) (n a b : nat) :
  String.substring n (a + b) s
  = (String.substring n a s ++ String.substring (n + a) b s)%string.
Proof.
  revert n a. induction s as [|c s IH]; intros n a.
  - rewrite !substring_empty. reflexivity.
  - destruct n as [|n].
    + destruct a as [|a]; simpl.
      * reflexivity.
      * rewrite (IH 0%nat a). reflexivity.
    + simpl. apply IH.
Qed.

Lemma substring_length (s : string) (n m : nat) :
  (n + m <= String.length s)%nat ->
  String.length (String.substring n m s) = m.
Proof.
  revert n m. induction s as [|c s IH]; intros n m L; simpl in L.
  - assert (n = 0%nat) by lia. assert (m = 0%nat) by lia. subst. reflexivity.
  - destruct n as [|n].
    + destruct m as [|m]; simpl; [reflexivity|].
      rewrite (IH 0%nat m) by (simpl; lia). reflexivity.
    + simpl. apply IH. lia.
Qed.

Section NameBounds.
Context {D : Type} `{NameMembers D}.
Variable self : D.
Hypothesis typed : NameMembers_typed self.
Hypothesis fits : Z.of_nat (String.length (detailed_name self)) < 2 ^ 63.

Lemma Name_unqualified_in_bounds_iff :
  sv_in_bounds (detailed_name self) (Name self false) = true <->
  0 <= short_name_offset self /\ 0 <= short_name_size self /\
  short_name_offset self + short_name_size self
  <= Z.of_nat (String.length (detailed_name self)).
Proof.
  destruct typed as (_ & T2 & T3). unfold int16_t in T2, T3.
  unfold sv_in_bounds, Name. simpl.
  rewrite andb_true_iff, !Z.leb_le.
  destruct (Z.lt_ge_cases (short_name_size self) 0) as [N | P].
  - rewrite size_t_of_negative by lia. lia.
  - rewrite size_t_of_small by lia. lia.
Qed.

Lemma Name_qualified_in_bounds_iff :
  sv_in_bounds (detailed_name self) (Name self true) = true <->
  0 <= qual_name_offset self /\
  0 <= short_name_offset self - qual_name_offset self + short_name_size self /\
  short_name_offset self + short_name_size self
  <= Z.of_nat (String.length (detailed_name self)).
Proof.
  destruct typed as (T1 & T2 & T3). unfold int16_t in T1, T2, T3.
  unfold sv_in_bounds, Name. simpl.
  rewrite andb_true_iff, !Z.leb_le.
  destruct (Z.lt_ge_cases
              (short_name_offset self - qual_name_offset self +
               short_name_size self) 0) as [N | P].
  - rewrite size_t_of_negative by lia. lia.
  - rewrite size_t_of_small by lia. lia.
Qed.
End NameBounds.

(** X5: for [int16_t] offsets and a string shorter than [2^63], the unqualified
    view lies within [detailed_name] exactly when [short_name_offset] and
    [short_name_size] are not negative and their sum is at most the length;
    the qualified view exactly when [qual_name_offset] and the computed
    length are not negative and the short name ends within the string.  The
    length is computed in [int] without overflow. *)
Theorem Name_in_bounds_iff :
  forall (D : Type) (M : NameMembers D) (self : D),
    NameMembers_typed self ->
    Z.of_nat (String.length (detailed_name self)) < 2 ^ 63 ->
    (sv_in_bounds (detailed_name self) (Name self false) = true <->
     0 <= short_name_offset self /\ 0 <= short_name_size self /\
     short_name_offset self + short_name_size self
     <= Z.of_nat (String.length (detailed_name self))) /\
    (sv_in_bounds (detailed_name self) (Name self true) = true <->
     0 <= qual_name_offset self /\
     0 <= short_name_offset self - qual_name_offset self + short_name_size self /\
     short_name_offset self + short_name_size self
     <= Z.of_nat (String.length (detailed_name self))) /\
    - 2 ^ 31 <= short_name_offset self - qual_name_offset self +
                short_name_size self < 2 ^ 31.
Proof.
  intros D M self T L.
  split; [apply Name_unqualified_in_bounds_iff; assumption|].
  split; [apply Name_qualified_in_bounds_iff; assumption|].
  destruct T as (T1 & T2 & T3). unfold int16_t in T1, T2, T3. lia.
Qed.

Lemma Name_in_bounds_iff_witness :
  NameMembers_typed var_negative_size /\
  Z.of_nat (String.length (detailed_name var_negative_size)) < 2 ^ 63 /\
  sv_in_bounds (detailed_name var_negative_size)
               (Name var_negative_size false) <> true.
Proof.
  assert (T : NameMembers_typed var_negative_size)
    by (unfold NameMembers_typed, int16_t; simpl; lia).
  assert (L : Z.of_nat (String.length (detailed_name var_negative_size)) < 2 ^ 63)
    by (simpl; lia).
  split; [exact T|]. split; [exact L|].
  intros B.
  apply (proj1 (Name_in_bounds_iff _ _ var_negative_size T L)) in B.
  simpl in B. lia.
Defined.

(** X6: under the precondition of [Name], the qualified name is a qualifier of
    [short_name_offset - qual_name_offset] characters followed by the short
    name, which has [short_name_size] characters. *)
Theorem Name_qualified_ends_with_short :
  forall (D : Type) (M : NameMembers D) (self : D),
    NameMembers_typed self ->
    Name_offsets_ok self ->
    0 <= short_name_size self ->
    let s := detailed_name self in
    let qualifier :=
      String.substring (Z.to_nat (qual_name_offset self))
        (Z.to_nat (short_name_offset self - qual_name_offset self)) s in
    let short :=
      String.substring (Z.to_nat (short_name_offset self))
        (Z.to_nat (short_name_size self)) s in
    sv_contents s (Name self false) = Some short /\
    sv_contents s (Name self true) = Some (qualifier ++ short)%string /\
    Z.of_nat (String.length short) = short_name_size self /\
    Z.of_nat (String.length qualifier)
    = short_name_offset self - qual_name_offset self.
Proof.
  intros D M self T O S s qualifier short.
  destruct (Name_returns_names_holds self T O S) as [Cu Cq].
  destruct O as ((O1 & O2) & O3).
  split; [exact Cu|].
  split.
  - fold s in Cq. rewrite Cq. f_equal. unfold qualifier, short.
    replace (Z.to_nat (short_name_offset self - qual_name_offset self +
                       short_name_size self))
      with (Z.to_nat (short_name_offset self - qual_name_offset self) +
            Z.to_nat (short_name_size self))%nat by lia.
    rewrite substring_split. do 2 f_equal. lia.
  - split.
    + unfold short. rewrite substring_length; unfold s; lia.
    + unfold qualifier. rewrite substring_length; unfold s; lia.
Qed.

Lemma Name_qualified_ends_with_short_witness :
  NameMembers_typed method_m /\ Name_offsets_ok method_m /\
  0 <= short_name_size method_m /\
  sv_contents (detailed_name method_m) (Name method_m true)
  = Some ("n::C::" ++ "m")%string.
Proof.
  assert (T : NameMembers_typed method_m)
    by (unfold NameMembers_typed, int16_t; simpl; lia).
  assert (O : Name_offsets_ok method_m)
    by (unfold Name_offsets_ok; simpl; lia).
  assert (S : 0 <= short_name_size method_m) by (simpl; lia).
  split; [exact T|]. split; [exact O|]. split; [exact S|].
  exact (proj1 (proj2 (Name_qualified_ends_with_short _ _ method_m T O S))).
Defined.

(** ** Further properties of RunSafely *)

Lemma env_is_zero_literal_dec (env : option string) :
  env = Some "0"%string \/ env <> Some "0"%string.
Proof.
  destruct env as [e|]; [|right; discriminate].
  destruct (string_dec e "0") as [-> | N]; [left; reflexivity|].
  right. intros E. injection E as E. contradiction.
Qed.

Section RunSafelyFacts.
Variable World : Type.
Variable CRC_RunSafely : Fn World -> World -> bool * World.
Variables (env : option string) (fn : Fn World) (w : World).
Hypothesis env_ok : getenv_result env = true.

Lemma RunSafely_disabled :
  env = Some "0"%string ->
  RunSafely World CRC_RunSafely env fn w = run_unshielded World fn w.
Proof. intros ->. reflexivity. Qed.

Lemma RunSafely_armed :
  env <> Some "0"%string ->
  RunSafely World CRC_RunSafely env fn w
  = Returned (fst (CRC_RunSafely fn w)) (snd (CRC_RunSafely fn w)).
Proof.
  intros N. unfold RunSafely.
  assert (Sh : (let '(r, w') := CRC_RunSafely fn w in @Returned World bool r w')
               = Returned (fst (CRC_RunSafely fn w)) (snd (CRC_RunSafely fn w))).
  { destruct (CRC_RunSafely fn w); reflexivity. }
  destruct env as [e|]; [|exact Sh].
  destruct (strcmp e "0" =? 0) eqn:E; [|exact Sh].
  exfalso. apply N. f_equal.
  apply (strcmp_zero_literal e env_ok). apply Z.eqb_eq. exact E.
Qed.

Lemma RunSafely_false_from_CRC (w' : World) :
  RunSafely World CRC_RunSafely env fn w = Returned false w' ->
  env <> Some "0"%string /\ CRC_RunSafely fn w = (false, w').
Proof.
  intros R.
  assert (N : env <> Some "0"%string).
  { intros E. rewrite (RunSafely_disabled E) in R. unfold run_unshielded in R.
    destruct (fn w); discriminate R. }
  split; [exact N|].
  rewrite (RunSafely_armed N) in R. injection R as R1 R2.
  destruct (CRC_RunSafely fn w) as [r x]. simpl in R1, R2. subst. reflexivity.
Qed.

Lemma RunSafely_fault_iff :
  RunSafely World CRC_RunSafely env fn w = Fault <->
  env = Some "0"%string /\ fn w = Fault.
Proof.
  split.
  - intros R.
    assert (E : env = Some "0"%string).
    { destruct (env_is_zero_literal_dec env) as [E | N]; [exact E|].
      rewrite (RunSafely_armed N) in R. discriminate R. }
    split; [exact E|].
    rewrite (RunSafely_disabled E) in R. unfold run_unshielded in R.
    destruct (fn w) as [u x|]; [discriminate R | reflexivity].
  - intros [E F]. rewrite (RunSafely_disabled E). unfold run_unshielded.
    rewrite F. reflexivity.
Qed.
End RunSafelyFacts.

(** X7: [RunSafely] yields [false] only when the shield is armed and
    [CRC.RunSafely] itself yielded [false]; a fault of the closure leaves
    [RunSafely] only when the variable is "0". *)
Theorem RunSafely_false_only_from_CRC :
  forall (World : Type) (CRC_RunSafely : Fn World -> World -> bool * World)
         (env : option string) (fn : Fn World) (w : World),
    getenv_result env = true ->
    (forall w' : World,
        RunSafely World CRC_RunSafely env fn w = Returned false w' ->
        env <> Some "0"%string /\ CRC_RunSafely fn w = (false, w')) /\
    (RunSafely World CRC_RunSafely env fn w = Fault <->
     env = Some "0"%string /\ fn w = Fault).
Proof.
  intros World CRC env fn w G. split.
  - intros w'. apply RunSafely_false_from_CRC. exact G.
  - apply RunSafely_fault_iff. exact G.
Qed.

Lemma RunSafely_false_only_from_CRC_witness :
  getenv_result (Some "1"%string) = true /\
  RunSafely nat counting_CRC (Some "1"%string) crash 5%nat
  = Returned false 5%nat /\
  counting_CRC crash 5%nat = (false, 5%nat).
Proof.
  split; [reflexivity|]. split; [reflexivity|].
  exact (proj2 (proj1 (RunSafely_false_only_from_CRC nat counting_CRC
                         (Some "1"%string) crash 5%nat eq_refl)
                  5%nat eq_refl)).
Defined.

(** ** What equality of defs implies *)

#[export] Instance string_EqOpSpec : EqOpSpec string.
Proof. intros a b. apply String.eqb_eq. Qed.

Lemma StorageClass_value_inj (a b : StorageClass) :
  StorageClass_value a = StorageClass_value b -> a = b.
Proof. destruct a, b; simpl; intros H; try reflexivity; discriminate H. Qed.

#[export] Instance StorageClass_EqOpSpec : EqOpSpec StorageClass.
Proof.
  intros a b. unfold eq_op, StorageClass_EqOp. rewrite Z.eqb_eq. split.
  - apply StorageClass_value_inj.
  - intros ->; reflexivity.
Qed.

Lemma vector_eq_length {A : Type} `{EqOp A} (xs ys : list A) :
  (xs ==? ys) = true -> List.length xs = List.length ys.
Proof.
  unfold eq_op at 1, vector_EqOp. revert ys.
  induction xs as [|x xs IH]; intros [|y ys] E; simpl in E;
    try discriminate E; try reflexivity.
  apply andb_true_iff in E. destruct E as [_ E].
  simpl. f_equal. apply IH. exact E.
Qed.

Section DefEqualityFacts.
Context {Range : Type} {Range_EqOp : EqOp Range}.
Context {NtString : Type} {NtString_EqOp : EqOp NtString}.
Context {Maybe : Type -> Type}
        {Maybe_EqOp : forall T : Type, EqOp T -> EqOp (Maybe T)}.
Context {F : Family}.

Lemma TypeDef_eq_implies (a o : @TypeDef Range NtString Maybe F) :
  (a ==? o) = true ->
  type_detailed_name a = type_detailed_name o /\
  type_kind a = type_kind o /\
  List.length (type_bases a) = List.length (type_bases o) /\
  List.length (type_types a) = List.length (type_types o) /\
  List.length (type_funcs a) = List.length (type_funcs o) /\
  List.length (type_vars a) = List.length (type_vars o).
Proof.
  unfold eq_op at 1, TypeDef_EqOp. intros E.
  repeat (apply andb_true_iff in E; destruct E as [E ?]).
  repeat split;
    try (apply eq_op_spec; assumption);
    try (apply vector_eq_length; assumption).
Qed.

Lemma FuncDef_eq_implies (a o : @FuncDef Range NtString Maybe F) :
  (a ==? o) = true ->
  func_detailed_name a = func_detailed_name o /\
  func_kind a = func_kind o /\
  func_storage a = func_storage o /\
  List.length (func_bases a) = List.length (func_bases o) /\
  List.length (func_vars a) = List.length (func_vars o) /\
  List.length (func_callees a) = List.length (func_callees o).
Proof.
  unfold eq_op at 1, FuncDef_EqOp. intros E.
  repeat (apply andb_true_iff in E; destruct E as [E ?]).
  repeat split;
    try (apply eq_op_spec; assumption);
    try (apply vector_eq_length; assumption).
Qed.

Lemma VarDef_eq_implies (a o : @VarDef Range NtString Maybe F) :
  (a ==? o) = true ->
  var_detailed_name a = var_detailed_name o /\
  var_kind a = var_kind o /\
  var_storage a = var_storage o /\
  is_local a = is_local o.
Proof.
  unfold eq_op at 1, VarDef_EqOp. intros E.
  repeat (apply andb_true_iff in E; destruct E as [E ?]).
  assert (K : var_kind a = var_kind o) by (apply eq_op_spec; assumption).
  split; [apply eq_op_spec; assumption|].
  split; [exact K|].
  split; [apply eq_op_spec; assumption|].
  unfold is_local. rewrite K. reflexivity.
Qed.
End DefEqualityFacts.

(** X8: defs that compare equal have the same [detailed_name] and [kind], the
    same [storage] where there is one, and as many bases, members and
    callees; equal variable defs agree on [is_local()]. *)
Theorem Def_equality_implies_same_name_and_kind :
  forall (Range : Type) (Range_EqOp : EqOp Range)
         (NtString : Type) (NtString_EqOp : EqOp NtString)
         (Maybe : Type -> Type)
         (Maybe_EqOp : forall T : Type, EqOp T -> EqOp (Maybe T))
         (F : Family),
    (forall a o : @TypeDef Range NtString Maybe F,
        (a ==? o) = true ->
        type_detailed_name a = type_detailed_name o /\
        type_kind a = type_kind o /\
        List.length (type_bases a) = List.length (type_bases o) /\
        List.length (type_types a) = List.length (type_types o) /\
        List.length (type_funcs a) = List.length (type_funcs o) /\
        List.length (type_vars a) = List.length (type_vars o)) /\
    (forall a o : @FuncDef Range NtString Maybe F,
        (a ==? o) = true ->
        func_detailed_name a = func_detailed_name o /\
        func_kind a = func_kind o /\
        func_storage a = func_storage o /\
        List.length (func_bases a) = List.length (func_bases o) /\
        List.length (func_vars a) = List.length (func_vars o) /\
        List.length (func_callees a) = List.length (func_callees o)) /\
    (forall a o : @VarDef Range NtString Maybe F,
        (a ==? o) = true ->
        var_detailed_name a = var_detailed_name o /\
        var_kind a = var_kind o /\
        var_storage a = var_storage o /\
        is_local a = is_local o).
Proof.
  intros Range Re NtString Ne Maybe Me F.
  split; [apply TypeDef_eq_implies|].
  split; [apply FuncDef_eq_implies | apply VarDef_eq_implies].
Qed.
